(** * Protocol-Analyzer: framework/Common.hpp, framework/GlobalInfo.hpp and
      the binary structured data engine scenario of
      test/test_binary_data_engine.cpp.

    The development embeds the C++ functions as Rocq functions:
    integers are [Z] with their wrap-around written out, [std::byte]
    buffers are [list byte], [std::string] is [string], element pointers
    are addresses with 0 for [nullptr], owning pointers are [option]s, and
    [const] member functions thread the object they read through a small
    state-passing type. *)

From Stdlib Require Import ZArith List Bool Lia.
From Stdlib Require Import Strings.String Strings.Ascii Strings.Byte.
Import ListNotations.

Local Open Scope Z_scope.

(** ** Integral types of the target platform *)

Module Platform.

(** An integral type is known by its [sizeof] (in bytes) and its
    signedness. *)
Record IntType : Type := mkInt { sizeof : Z; is_signed : bool }.

Definition bits (T : IntType) : Z := 8 * sizeof T.

(** [std::numeric_limits<T>::min()] and [::max()]. *)
Definition numeric_limits_min (T : IntType) : Z :=
  if is_signed T then - 2 ^ (bits T - 1) else 0.

Definition numeric_limits_max (T : IntType) : Z :=
  if is_signed T then 2 ^ (bits T - 1) - 1 else 2 ^ bits T - 1.

Definition in_range (T : IntType) (v : Z) : Prop :=
  numeric_limits_min T <= v <= numeric_limits_max T.

(** Conversion of an integer value to [T]: reduction modulo [2^bits],
    re-centred for a signed destination. *)
Definition convert (T : IntType) (v : Z) : Z :=
  let m := v mod 2 ^ bits T in
  if is_signed T && (2 ^ (bits T - 1) <=? m) then m - 2 ^ bits T else m.

Definition signed_char : IntType := mkInt 1 true.
Definition std_byte    : IntType := mkInt 1 false.
Definition uint8_t     : IntType := mkInt 1 false.
Definition int16_t     : IntType := mkInt 2 true.
Definition uint16_t    : IntType := mkInt 2 false.
Definition int32_t     : IntType := mkInt 4 true.
Definition uint32_t    : IntType := mkInt 4 false.
Definition int64_t     : IntType := mkInt 8 true.
Definition uint64_t    : IntType := mkInt 8 false.

(** [std::size_t] of the LP64 targets the framework is built for. *)
Definition size_t : IntType := uint64_t.

(** [int]: operands of lower rank are promoted to it before [+] and [-]. *)
Definition int_ : IntType := int32_t.

End Platform.

Import Platform.

(** ** [common::text]: hexadecimal formatting *)

Module text.

(** One digit as [operator<<] prints it under [std::hex], with or
    without [std::ios_base::uppercase]. *)
Definition hex_digit (upper : bool) (d : Z) : ascii :=
  if d <? 10 then ascii_of_nat (Z.to_nat (48 + d))
  else if upper then ascii_of_nat (Z.to_nat (65 + (d - 10)))
  else ascii_of_nat (Z.to_nat (97 + (d - 10))).

(** The digits of a non-negative value, most significant first, without
    leading zeros ([0] prints as one digit).  [fuel] bounds the number
    of digits: 16 for a 64-bit value. *)
Fixpoint hex_digits (fuel : nat) (upper : bool) (n : Z) : string :=
  match fuel with
  | O => EmptyString
  | S fuel' =>
      if n <? 16 then String (hex_digit upper n) EmptyString
      else (hex_digits fuel' upper (n / 16)
            ++ String (hex_digit upper (n mod 16)) EmptyString)%string
  end.

(** [std::setfill(c)]: [n] fill characters. *)
Fixpoint fill (c : ascii) (n : nat) : string :=
  match n with
  | O => EmptyString
  | S n' => String c (fill c n')
  end.

(** [os << std::hex << std::setfill('0') << std::setw(width) << value]
    for a [std::size_t] value: the field is padded on the left up to
    [width] characters and is never cut. *)
Definition put_hex (upper : bool) (width : Z) (value : Z) : string :=
  let digits := hex_digits 16 upper value in
  (fill "0" (Z.to_nat width - String.length digits) ++ digits)%string.

(** [getHexValue (const Type data, const uint16_t width = 2, bool upper = true)]. *)
Definition getHexValue (T : IntType) (data : Z) (width : Z) (upper : bool) : string :=
  put_hex upper (convert uint16_t width) (convert size_t data).

(** [getHexString (const Type* data, const std::size_t length,
                   const uint16_t width = 2, bool upper = true)]:
    the loop over [idx] in [0, length). *)
Fixpoint getHexString_loop (T : IntType) (data : list Z) (width : Z) (upper : bool)
         (result : string) : string :=
  match data with
  | [] => result
  | d :: rest =>
      getHexString_loop T rest width upper
        (result ++ getHexValue T d (convert uint16_t width * sizeof T) upper)%string
  end.

Definition getHexString (T : IntType) (data : list Z) (length : nat)
           (width : Z) (upper : bool) : string :=
  getHexString_loop T (firstn length data) width upper EmptyString.

Definition default_width : Z := 2.
Definition default_upper : bool := true.

End text.

(** ** Reading hexadecimal text back *)

Module hex.

(** The value of one hexadecimal digit character, of either case. *)
Definition digit_value (c : ascii) : Z :=
  let n := Z.of_nat (nat_of_ascii c) in
  if n <? 58 then n - 48 else if n <? 71 then n - 55 else n - 87.

(** The number a string of hexadecimal digits denotes. *)
Fixpoint value_from (s : string) (acc : Z) : Z :=
  match s with
  | EmptyString => acc
  | String c rest => value_from rest (16 * acc + digit_value c)
  end.

Definition value (s : string) : Z := value_from s 0.

(** ['0'..'9'] or ['A'..'F']. *)
Definition is_upper_digit (c : ascii) : bool :=
  let n := nat_of_ascii c in
  ((48 <=? n) && (n <=? 57) || (65 <=? n) && (n <=? 70))%nat.

Fixpoint all_upper_digits (s : string) : bool :=
  match s with
  | EmptyString => true
  | String c rest => is_upper_digit c && all_upper_digits rest
  end.

(** The two digits of a byte, high nibble first. *)
Definition pair_of (upper : bool) (b : Z) : string :=
  String (text.hex_digit upper (b / 16))
    (String (text.hex_digit upper (b mod 16)) EmptyString).

(** The pairs of a byte sequence, one after the other. *)
Fixpoint pairs (upper : bool) (data : list Z) : string :=
  match data with
  | [] => EmptyString
  | b :: rest => (pair_of upper b ++ pairs upper rest)%string
  end.

End hex.

(** ** [common::file] *)

Module file.

(** [static const std::size_t ErrorState = std::numeric_limits<std::size_t>::max();] *)
Definition ErrorState : Z := numeric_limits_max size_t.

End file.


(** ** [const] member functions as state-passing computations *)

Module Method.

(** A member function run on an object of type [S]: it returns a value
    and the object it leaves behind. *)
Definition t (S A : Type) : Type := S -> A * S.

Definition ret {S A} (a : A) : t S A := fun s => (a, s).

Definition bind {S A B} (m : t S A) (k : A -> t S B) : t S B :=
  fun s => let (a, s') := m s in k a s'.

(** Reading a member of [*this]. *)
Definition read {S A} (f : S -> A) : t S A := fun s => (f s, s).

Definition result {S A} (m : t S A) (s : S) : A := fst (m s).
Definition after  {S A} (m : t S A) (s : S) : S := snd (m s).

End Method.

Notation "x <- m ;; k" := (Method.bind m (fun x => k))
  (at level 61, m at next level, right associativity).

(** ** [common::Data<Type>] *)

Module Data.

(** Addresses are numbers; [nullptr] is address 0. *)
Definition pointer : Type := Z.
Definition nullptr : pointer := 0.

Section WithType.

Variable Type_ : Type.
(** [sizeof(Type)]. *)
Variable elem_size : Z.

(** The array a [std::unique_ptr<Type[]>] owns: where it lives and
    what it holds. *)
Record array : Type := mkArray { base : pointer; elems : list Type_ }.

(** [std::unique_ptr<Type[]> data = nullptr; std::size_t length = 0;] *)
Record t : Type := mk { data : option array; length : Z }.

(** [data.get()]. *)
Definition get_ (d : t) : pointer :=
  match data d with
  | Some a => base a
  | None => nullptr
  end.

(** [&data[index]]: the address [index] elements past [data.get()]. *)
Definition address_of (d : t) (index : Z) : pointer :=
  get_ d + index * elem_size.

(** [inline std::size_t Size(void) const noexcept]. *)
Definition Size : Method.t t Z := Method.read length.

(** [inline Type* Get(void) const noexcept]. *)
Definition Get : Method.t t pointer := Method.read get_.

(** [inline Type* GetAt (const std::size_t index) const noexcept]. *)
Definition GetAt (index : Z) : Method.t t pointer :=
  Method.read (fun d => if index <? length d then address_of d index else nullptr).

(** What a pointer into the container's array points to. *)
Definition deref (d : t) (p : pointer) : option Type_ :=
  match data d with
  | Some a =>
      if (base a <=? p) && ((p - base a) mod elem_size =? 0)
      then nth_error (elems a) (Z.to_nat ((p - base a) / elem_size))
      else None
  | None => None
  end.

(** The container as its constructors' callers build it: [size] is the
    number of elements of the array handed over, and an empty
    container holds no array. *)
Definition well_formed (d : t) : Prop :=
  match data d with
  | Some a => 0 < base a /\ length d = Z.of_nat (List.length (elems a))
  | None => length d = 0
  end.

End WithType.

Arguments mkArray {Type_}.
Arguments mk {Type_}.
Arguments base {Type_}.
Arguments elems {Type_}.
Arguments data {Type_}.
Arguments length {Type_}.
Arguments get_ {Type_}.
Arguments address_of {Type_}.
Arguments Size {Type_}.
Arguments Get {Type_}.
Arguments GetAt {Type_}.
Arguments deref {Type_}.
Arguments well_formed {Type_}.

End Data.

(** ** Type traits: [is_pod_type] *)

Module traits.

Inductive access : Type := Public | Protected | Private.

Definition access_eqb (a b : access) : bool :=
  match a, b with
  | Public, Public | Protected, Protected | Private, Private => true
  | _, _ => false
  end.

(** The part of a C++ type the three standard traits look at. A scalar
    is an arithmetic, enumeration or pointer type; a class is described
    by its special member functions and its non-static data members
    (access, presence of a default member initializer, type). *)
#[warnings="-register-all"]
Inductive cpp_type : Type :=
| Scalar
| Class (has_virtual : bool)
        (user_provided_default_ctor : bool)
        (user_provided_copy_or_move : bool)
        (user_provided_dtor : bool)
        (members : list (access * bool * cpp_type)).

(** [std::is_trivially_copyable<T>::value]. *)
Fixpoint is_trivially_copyable (T : cpp_type) : bool :=
  match T with
  | Scalar => true
  | Class virt _ copy dtor members =>
      negb virt && negb copy && negb dtor
      && forallb (fun m => is_trivially_copyable (snd m)) members
  end.

(** Whether the default constructor is trivial. *)
Fixpoint has_trivial_default_ctor (T : cpp_type) : bool :=
  match T with
  | Scalar => true
  | Class virt ctor _ _ members =>
      negb virt && negb ctor
      && forallb (fun m => negb (snd (fst m)) && has_trivial_default_ctor (snd m)) members
  end.

(** [std::is_trivial<T>::value]: trivially copyable with a trivial
    default constructor. *)
Definition is_trivial (T : cpp_type) : bool :=
  is_trivially_copyable T && has_trivial_default_ctor T.

Definition same_access (members : list (access * bool * cpp_type)) : bool :=
  match members with
  | [] => true
  | m :: rest => forallb (fun m' => access_eqb (fst (fst m)) (fst (fst m'))) rest
  end.

(** [std::is_standard_layout<T>::value]. *)
Fixpoint is_standard_layout (T : cpp_type) : bool :=
  match T with
  | Scalar => true
  | Class virt _ _ _ members =>
      negb virt && same_access members
      && forallb (fun m => is_standard_layout (snd m)) members
  end.

(** [is_pod_type<Type>::value]: the primary template gives [false], the
    partial specialisation enabled by
    [std::is_trivial<Type>::value && std::is_standard_layout<Type>::value]
    gives [true]. *)
Definition is_pod_type (T : cpp_type) : bool :=
  if is_trivial T && is_standard_layout T then true else false.

(** [struct Counter { int value = 0; };] *)
Definition Counter : cpp_type :=
  Class false false false false [(Public, true, Scalar)].

(** [class Mixed { public: int a; private: int b; };] *)
Definition Mixed : cpp_type :=
  Class false false false false [(Public, false, Scalar); (Private, false, Scalar)].

End traits.

(** ** [common::GetRandomValue] *)

Module random.

(** The type in which [begin + 1] and [end - 1] are computed: operands
    narrower than [int] are promoted to [int]. *)
Definition promoted (T : IntType) : IntType :=
  if sizeof T <? sizeof int_ then int_ else T.

Definition in_range_b (T : IntType) (v : Z) : bool :=
  (numeric_limits_min T <=? v) && (v <=? numeric_limits_max T).

(** [v + delta] in the promoted type, then passed as a [Type] argument.
    Unsigned arithmetic wraps; signed overflow has no defined result. *)
Definition offset (T : IntType) (v delta : Z) : option Z :=
  let P := promoted T in
  if is_signed P
  then if in_range_b P (v + delta) then Some (convert T (v + delta)) else None
  else Some (convert T (convert P (v + delta))).

(** [dist(gen, param_t(a, b))] of [std::uniform_int_distribution]: it
    requires [a <= b] and then yields a value of [[a, b]] picked by the
    generator, whose draw is [g]. *)
Definition uniform_int_distribution (g : Z) (a b : Z) : option Z :=
  if a <=? b then Some (a + g mod (b - a + 1)) else None.

(** [GetRandomValue (const Type begin, const Type end)]:
    [return dist(gen, param_t(begin + 1, end - 1));] *)
Definition GetRandomValue (T : IntType) (g : Z) (begin end_ : Z) : option Z :=
  match offset T begin 1, offset T end_ (-1) with
  | Some a, Some b => uniform_int_distribution g a b
  | _, _ => None
  end.

End random.


(** ** [storage::GlobalInfo] *)

Module GlobalInfo.

Section Registry.

(** [modules::FRAMEWORK_MODULE_TYPES_SIZE], of FrameworkModuleTypes.hpp. *)
Variable FRAMEWORK_MODULE_TYPES_SIZE : Z.

(** [static uint16_t GetModuleCallbacksSize (uint16_t module) noexcept],
    declared in the class and defined out of line. *)
Variable GetModuleCallbacksSize : Z -> Z.

(** [callbacks::BaseCallbackFunctor] and the functor type asked for. *)
Variable BaseCallbackFunctor : Type.
Variable Type_ : Type.

(** [dynamic_cast<Type*>] on a non-null functor. *)
Variable dynamic_cast : BaseCallbackFunctor -> option Type_.

(** One module's table, [std::unique_ptr<BaseCallbackFunctor>[]]. *)
Definition table : Type := list (option BaseCallbackFunctor).

(** A line handed to the logger by [LOG_ERROR (text, value, '.')]. *)
Record log_line : Type := mkLine { text : string; value : Z }.

(** The singleton and the logger it writes to. *)
Record t : Type := mk {
  callbacks : list (option table);
  logger : list log_line
}.

Definition LOG_ERROR (msg : string) (v : Z) : Method.t t unit :=
  fun gi => (tt, mk (callbacks gi) (logger gi ++ [mkLine msg v])).

(** [callbacks[module]] *)
Definition module_table (module : Z) : Method.t t (option table) :=
  Method.read (fun gi => nth (Z.to_nat module) (callbacks gi) None).

(** [dynamic_cast<Type*>(callbacks[module][callback].get())] *)
Definition cast_slot (tbl : table) (callback : Z) : option Type_ :=
  match nth (Z.to_nat callback) tbl None with
  | Some functor => dynamic_cast functor
  | None => None
  end.

(** [Type* GetCallback (const uint16_t module, const uint16_t callback) const noexcept] *)
Definition GetCallback (module callback : Z) : Method.t t (option Type_) :=
  if FRAMEWORK_MODULE_TYPES_SIZE <=? module then
    _ <- LOG_ERROR "GlobalInfo.GetCallback: Incorrect input module type - " module ;;
    Method.ret None
  else
    tbl <- module_table module ;;
    match tbl with
    | None => Method.ret None
    | Some tbl =>
        if callback <? GetModuleCallbacksSize module then
          Method.ret (cast_slot tbl callback)
        else
          _ <- LOG_ERROR "GlobalInfo.GetCallback: Incorrect input callback type - " callback ;;
          Method.ret None
    end.

End Registry.

Arguments mk {BaseCallbackFunctor}.
Arguments callbacks {BaseCallbackFunctor}.
Arguments logger {BaseCallbackFunctor}.
Arguments GetCallback FRAMEWORK_MODULE_TYPES_SIZE GetModuleCallbacksSize
  {BaseCallbackFunctor Type_}.

End GlobalInfo.


(** ** [types::BinaryDataEngine] *)

Module BinaryDataEngine.

Inductive DATA_ENDIAN_TYPE : Type := DATA_BIG_ENDIAN | DATA_LITTLE_ENDIAN.

Inductive DATA_HANDLING_MODE : Type := DATA_MODE_DEPENDENT | DATA_MODE_INDEPENDENT.

Definition byte_val (b : byte) : Z := Z.of_N (Byte.to_N b).

Definition byte_of (v : Z) : byte :=
  match Byte.of_N (Z.to_N (v mod 256)) with
  | Some b => b
  | None => x00
  end.

(** Modelled from the spec: BinaryDataEngine.hpp is not among the
    sources. The engine holds a byte buffer, a bit mode and an endianness
    tag that is always big or little once constructed. *)
Record t : Type := mk {
  data : list byte;
  dataModeType : DATA_HANDLING_MODE;
  dataEndianType : DATA_ENDIAN_TYPE
}.

(** Modelled from the spec: [length_bytes()] of the missing
    BinaryDataEngine.hpp, the length of the buffer. *)
Definition Size (e : t) : nat := List.length (data e).

(** Modelled from the spec: [length_bits()] of the missing
    BinaryDataEngine.hpp, [8 * length_bytes()]. *)
Definition Length (e : t) : nat := 8 * Size e.

(** Modelled from the spec: [set_endian] of the missing
    BinaryDataEngine.hpp stores the new tag and leaves the bytes alone. *)
Definition SetDataEndianType (type : DATA_ENDIAN_TYPE) (e : t) : t :=
  mk (data e) (dataModeType e) type.

(** Modelled from the spec: the endianness and mode policy of the missing
    BinaryDataEngine.hpp. In dependent mode bit [b] lives in byte [b / 8]
    taken in endian order (from the front under big-endian, from the back
    under little-endian) at bit [7 - b mod 8]; in independent mode it
    lives in byte [b / 8] in raw order at bit [b mod 8]. *)
Definition GetBytePosition (e : t) (index : nat) : nat :=
  match dataModeType e, dataEndianType e with
  | DATA_MODE_DEPENDENT, DATA_LITTLE_ENDIAN => (Size e - 1 - index)%nat
  | _, _ => index
  end.

(** Modelled from the spec: the map from a bit index to a byte offset and
    a bit within that byte, of the missing BinaryDataEngine.hpp (see
    [GetBytePosition]). *)
Definition GetBitPosition (e : t) (index : nat) : nat * nat :=
  match dataModeType e with
  | DATA_MODE_DEPENDENT => (GetBytePosition e (index / 8), 7 - index mod 8)%nat
  | DATA_MODE_INDEPENDENT => (index / 8, index mod 8)%nat
  end.

(** Modelled from the spec: [test(i)] of the bit stream view in the
    missing BinaryDataEngine.hpp; an index out of range reads false. *)
Definition Test (e : t) (index : nat) : bool :=
  if (index <? Length e)%nat then
    let (offset, bit) := GetBitPosition e index in
    N.testbit (Byte.to_N (nth offset (data e) x00)) (N.of_nat bit)
  else false.

(** Modelled from the spec: [count()] of the bit stream view in the
    missing BinaryDataEngine.hpp, the number of set bits among bit
    indices [0, length). *)
Definition Count (e : t) : nat :=
  List.length (filter (Test e) (seq 0 (Length e))).




(** Modelled from the spec: bit [k] of one byte as the view of the
    missing BinaryDataEngine.hpp reads it in mode [mode]. *)
Definition byte_bit (mode : DATA_HANDLING_MODE) (b : byte) (k : nat) : bool :=
  match mode with
  | DATA_MODE_DEPENDENT => N.testbit (Byte.to_N b) (N.of_nat (7 - k))
  | DATA_MODE_INDEPENDENT => N.testbit (Byte.to_N b) (N.of_nat k)
  end.

(** How many of the eight bits of a byte are set. *)
Definition byte_count (mode : DATA_HANDLING_MODE) (b : byte) : nat :=
  List.length (filter (byte_bit mode b) (seq 0 8)).

End BinaryDataEngine.

(** ** [types::BinaryStructuredDataEngine] *)

Module BinaryStructuredDataEngine.

Import BinaryDataEngine.

(** Modelled from the spec: BinaryStructuredDataEngine.hpp is not among
    the sources. The structured engine owns an engine and a pattern of
    field widths in bytes. *)
Record t : Type := mk {
  data : BinaryDataEngine.t;
  dataPattern : list nat
}.

(** Modelled from the spec: the constructor of the missing
    BinaryStructuredDataEngine.hpp takes the endianness (and a mode) and
    leaves the engine empty. *)
Definition create (mode : DATA_HANDLING_MODE) (endian : DATA_ENDIAN_TYPE) : t :=
  mk (BinaryDataEngine.mk [] mode endian) [].

(** Modelled from the spec: the offset table [O[i] = sum of pattern[0..i)]
    of the missing BinaryStructuredDataEngine.hpp. *)
Definition FieldOffset (pattern : list nat) (index : nat) : nat :=
  list_sum (firstn index pattern).

(** Modelled from the spec: [assign_data(src, pattern, count)] of the
    missing BinaryStructuredDataEngine.hpp copies [sum(pattern)] bytes of
    the source region into a new owned buffer and stores the pattern; it
    fails, leaving the state as it was, on a null source or a zero count.
    A region shorter than the pattern breaks the POD input contract and
    is refused here as well. *)
Definition AssignData (memory : option (list byte)) (pattern : list nat)
           (count : nat) (s : t) : bool * t :=
  match memory with
  | None => (false, s)
  | Some region =>
      let pattern := firstn count pattern in
      let total := list_sum pattern in
      if (count =? 0)%nat || (List.length region <? total)%nat then (false, s)
      else (true,
            mk (BinaryDataEngine.mk (firstn total region)
                  (dataModeType (data s)) (dataEndianType (data s)))
               pattern)
  end.




(** Modelled from the spec: a sub-field of the bit schema is non-empty
    when some bit of it is set, the bits being those of the engine's bit
    stream view. *)
Definition SubFieldNonempty (e : BinaryDataEngine.t) (start width : nat) : bool :=
  existsb (Test e) (seq start width).

(** Modelled from the spec: the walk over the bit schema of the missing
    BinaryStructuredDataEngine.hpp, collecting in ascending order the
    indices of the non-empty sub-fields; [start] is the first bit of the
    sub-field numbered [index]. *)
Fixpoint NonemptyIndices (e : BinaryDataEngine.t) (pattern : list nat)
         (index start : nat) : list nat :=
  match pattern with
  | [] => []
  | width :: rest =>
      if SubFieldNonempty e start width
      then index :: NonemptyIndices e rest (S index) (start + width)
      else NonemptyIndices e rest (S index) (start + width)
  end.

(** Modelled from the spec: [get_nonempty_field_index(k, bit_pattern, m)]
    of the missing BinaryStructuredDataEngine.hpp returns the index of
    the k-th sub-field, in ascending index order, whose bits are not all
    zero, and nothing when fewer than [k + 1] sub-fields are non-empty or
    the widths do not sum to the bit length. *)
Definition GetNonemptyFieldIndex (k : nat) (bit_pattern : list nat) (m : nat)
           (s : t) : option nat :=
  let pattern := firstn m bit_pattern in
  if (list_sum pattern =? Length (data s))%nat
  then nth_error (NonemptyIndices (data s) pattern 0 0) k
  else None.

(** Modelled from the spec: sub-field [j] of a bit schema, of the missing
    BinaryStructuredDataEngine.hpp, starts at the sum of the widths
    before it and is as wide as [pattern[j]]. *)
Definition NonemptyAt (e : BinaryDataEngine.t) (pattern : list nat) (start j : nat) : bool :=
  SubFieldNonempty e (start + FieldOffset pattern j) (nth j pattern O).

(** How many sub-fields of a bit schema hold a set bit. *)
Definition NonemptyCount (e : BinaryDataEngine.t) (pattern : list nat) : nat :=
  List.length (filter (NonemptyAt e pattern 0) (seq 0 (List.length pattern))).

End BinaryStructuredDataEngine.

(** ** The scenario of test/test_binary_data_engine.cpp *)

Module Scenario.

Import BinaryDataEngine.

(** [#pragma pack(push, 1) struct Data { ... }] *)
Record Data : Type := mkData {
  SequenceNumber : Z;
  AcknowledgmentNumber : Z;
  Offset_Reserved_NS : Z;
  CWR_ECE_TcpFlags : Z;
  WindowSize : Z;
  Checksum : Z;
  UrgentPointer : Z
}.

(** [tcp { 0x00000000, 0x00000000, 0x0C, 0x00, 0x00FF, 0xAAAA, 0x0000 }] *)
Definition tcp : Data := mkData 0x00000000 0x00000000 0x0C 0x00 0x00FF 0xAAAA 0x0000.

(** The bytes of an integer member, least significant first. *)
Fixpoint le_bytes (size : nat) (v : Z) : list byte :=
  match size with
  | O => []
  | S size' => byte_of v :: le_bytes size' (v / 256)
  end.

Definition member_bytes (order : DATA_ENDIAN_TYPE) (T : IntType) (v : Z) : list byte :=
  match order with
  | DATA_LITTLE_ENDIAN => le_bytes (Z.to_nat (sizeof T)) v
  | DATA_BIG_ENDIAN => rev (le_bytes (Z.to_nat (sizeof T)) v)
  end.

(** What [&tcp] points to: the members one after the other, without
    padding, each in the byte order [order] of the memory image. *)
Definition object_bytes (order : DATA_ENDIAN_TYPE) (d : Data) : list byte :=
  member_bytes order uint32_t (SequenceNumber d)
  ++ member_bytes order uint32_t (AcknowledgmentNumber d)
  ++ member_bytes order uint8_t (Offset_Reserved_NS d)
  ++ member_bytes order uint8_t (CWR_ECE_TcpFlags d)
  ++ member_bytes order uint16_t (WindowSize d)
  ++ member_bytes order uint16_t (Checksum d)
  ++ member_bytes order uint16_t (UrgentPointer d).

(** [const uint16_t byte_pattern[7] = { 4, 4, 1, 1, 2, 2, 2 };] *)
Definition byte_pattern : list nat := [4; 4; 1; 1; 2; 2; 2]%nat.

(** [const uint16_t bit_pattern[10] = { 32, 32, 4, 3, 3, 6, 9, 7, 16, 16 };] *)
Definition bit_pattern : list nat := [32; 32; 4; 3; 3; 6; 9; 7; 16; 16]%nat.

(** [BinaryStructuredDataEngine buffer1(types::DATA_BIG_ENDIAN);
     buffer1.AssignData(&tcp, byte_pattern, 7);]
    for a bit mode [mode] and a memory image of [tcp] in byte order
    [order]. *)
Definition buffer1 (mode : DATA_HANDLING_MODE) (order : DATA_ENDIAN_TYPE)
  : bool * BinaryStructuredDataEngine.t :=
  BinaryStructuredDataEngine.AssignData
    (Some (object_bytes order tcp)) byte_pattern 7
    (BinaryStructuredDataEngine.create mode DATA_BIG_ENDIAN).

End Scenario.

(** ** [common::text]: [split] and the character tests *)

Module textutil.

(** [std::getline (ss, item, delimiter)] on the unread part of a stream:
    the characters up to the first delimiter form the item, the
    delimiter itself is consumed, and without a delimiter the item runs
    to the end of the stream. *)
Fixpoint read_item (unread : string) (delimiter : ascii) : string * string :=
  match unread with
  | EmptyString => (EmptyString, EmptyString)
  | String c rest =>
      if Ascii.eqb c delimiter then (EmptyString, rest)
      else let (item, rest') := read_item rest delimiter in (String c item, rest')
  end.

(** The call fails, and the [while] test with it, when not one character
    is left to extract. *)
Definition getline (unread : string) (delimiter : ascii) : option (string * string) :=
  match unread with
  | EmptyString => None
  | String _ _ => Some (read_item unread delimiter)
  end.

(** [while (std::getline(ss, item, delimiter)) { *(result++) = item; }]
    with [result] a back-insert iterator. [fuel] bounds the number of
    iterations. *)
Fixpoint split_loop (fuel : nat) (unread : string) (delimiter : ascii)
         (result : list string) : option (list string) :=
  match fuel with
  | O => None
  | S fuel' =>
      match getline unread delimiter with
      | None => Some result
      | Some (item, rest) => split_loop fuel' rest delimiter (result ++ [item])
      end
  end.

(** [void split (const std::string& str, char delimiter,
                 std::back_insert_iterator<Out> result)]. *)
Definition split (str : string) (delimiter : ascii) (result : list string)
  : option (list string) :=
  split_loop (S (String.length str)) str delimiter result.

(** Whether a character occurs in a string. *)
Fixpoint contains (c : ascii) (s : string) : bool :=
  match s with
  | EmptyString => false
  | String c' rest => Ascii.eqb c' c || contains c rest
  end.

(** How often a character occurs in a string. *)
Fixpoint occurrences (c : ascii) (s : string) : nat :=
  match s with
  | EmptyString => O
  | String c' rest => ((if Ascii.eqb c' c then 1 else 0) + occurrences c rest)%nat
  end.

(** Whether the last character of a string is [c]. *)
Fixpoint ends_with (c : ascii) (s : string) : bool :=
  match s with
  | EmptyString => false
  | String c' EmptyString => Ascii.eqb c' c
  | String _ rest => ends_with c rest
  end.

(** The items written one after the other with the delimiter between
    them. *)
Fixpoint join (delimiter : ascii) (items : list string) : string :=
  match items with
  | [] => EmptyString
  | [item] => item
  | item :: rest => (item ++ String delimiter (join delimiter rest))%string
  end.

(** What a string splits into, as a relation: nothing for the empty
    string, one last item without delimiter, or an item followed by the
    delimiter and the items of what comes after it. *)
Inductive splits (delimiter : ascii) : string -> list string -> Prop :=
| splits_empty : splits delimiter EmptyString []
| splits_last (item : string) :
    item <> EmptyString -> contains delimiter item = false ->
    splits delimiter item [item]
| splits_more (item rest : string) (items : list string) :
    contains delimiter item = false ->
    splits delimiter rest items ->
    splits delimiter (item ++ String delimiter rest) (item :: items).

(** The values of the platform's plain [char], which is signed. *)
Definition char_ : IntType := signed_char.

(** [static inline unsigned char charToUChar (const char symbol)]:
    [static_cast<unsigned char>(symbol)]. *)
Definition charToUChar (symbol : Z) : Z := convert uint8_t symbol.

(** [static inline bool isPrintable (const char symbol)]:
    [symbol >= 0x20 && symbol < 0x7f]. *)
Definition isPrintable (symbol : Z) : bool := (0x20 <=? symbol) && (symbol <? 0x7f).

(** [static inline bool isNumber (const char symbol)]:
    [symbol >= 0x30 && symbol <= 0x39]. *)
Definition isNumber (symbol : Z) : bool := (0x30 <=? symbol) && (symbol <=? 0x39).

End textutil.

(** ** Reading a hex dump back *)

Module hexdump.

(** ['0'..'9'] or ['a'..'f']. *)
Definition is_lower_digit (c : ascii) : bool :=
  let n := nat_of_ascii c in
  ((48 <=? n) && (n <=? 57) || (97 <=? n) && (n <=? 102))%nat.

(** Whether every character is a hexadecimal digit of the given case. *)
Fixpoint all_digits (upper : bool) (s : string) : bool :=
  match s with
  | EmptyString => true
  | String c rest =>
      (if upper then hex.is_upper_digit c else is_lower_digit c) && all_digits upper rest
  end.

(** The bytes a string of digit pairs denotes. *)
Fixpoint decode (s : string) : list byte :=
  match s with
  | String high (String low rest) =>
      BinaryDataEngine.byte_of (16 * hex.digit_value high + hex.digit_value low)
      :: decode rest
  | _ => []
  end.

(** The sixteen uppercase hexadecimal digits in order of value, and the
    digit of a nibble looked up in them. *)
Definition upper_digits : string := "0123456789ABCDEF".

Definition upper_digit (nibble : Z) : ascii :=
  match String.get (Z.to_nat nibble) upper_digits with
  | Some c => c
  | None => "0"%char
  end.

(** A byte written as two uppercase digits, the high nibble first, and a
    byte sequence written byte after byte with nothing in between. *)
Definition upper_pair (b : byte) : string :=
  String (upper_digit (BinaryDataEngine.byte_val b / 16))
    (String (upper_digit (BinaryDataEngine.byte_val b mod 16)) EmptyString).

Fixpoint upper_pairs (bytes : list byte) : string :=
  match bytes with
  | [] => EmptyString
  | b :: rest => (upper_pair b ++ upper_pairs rest)%string
  end.

End hexdump.

(** ** The constructors of [common::Data<Type>] *)

Module DataCtor.

(** [Data (Type* in, const std::size_t size) : data(in), length(size)]. *)
Definition from_pointer {A : Type} (in_ : option (Data.array A)) (size : Z) : Data.t A :=
  Data.mk in_ size.

(** [Data (std::unique_ptr<Type[]>& in, const std::size_t size)
       : data(std::move(in)), length(size)]:
    the container and what is left in [in]. *)
Definition from_unique_ptr {A : Type} (in_ : option (Data.array A)) (size : Z)
  : Data.t A * option (Data.array A) :=
  (Data.mk in_ size, None).

End DataCtor.

(** ** [task::TaskContext] *)

Module task.

(** [#define DEFAULT_TIMEOUT_TASK 10] and [#define TIMEOUT_TASK_UNLIMITED 0]. *)
Definition DEFAULT_TIMEOUT_TASK : Z := 10.
Definition TIMEOUT_TASK_UNLIMITED : Z := 0.

(** [enum TASK_STATUS : uint16_t]. *)
Inductive TASK_STATUS : Type :=
| TASK_STATE_IDLE
| TASK_STATE_ERROR
| TASK_STATE_TIMEOUT
| TASK_STATE_SKIP
| TASK_STATE_INIT
| TASK_STATE_IN_PROGRESS
| TASK_STATE_PENDING
| TASK_STATE_FINISHED.

(** The enumerators' values. *)
Definition status_code (s : TASK_STATUS) : Z :=
  match s with
  | TASK_STATE_IDLE => 0
  | TASK_STATE_ERROR => 1
  | TASK_STATE_TIMEOUT => 2
  | TASK_STATE_SKIP => 3
  | TASK_STATE_INIT => 4
  | TASK_STATE_IN_PROGRESS => 5
  | TASK_STATE_PENDING => 6
  | TASK_STATE_FINISHED => 7
  end.

(** What [LOG_TRACE] is handed by the two setters that log. *)
Inductive trace_line : Type :=
| StartTimeLine (worker : string) (start : Z)
| StatusLine (worker : string) (status : TASK_STATUS).

(** The worker a trace line names. *)
Definition line_worker (line : trace_line) : string :=
  match line with
  | StartTimeLine worker _ => worker
  | StatusLine worker _ => worker
  end.

(** The members of a task context, followed from a single thread (each
    atomic member then holds the last value stored), and the trace the
    logger has received. Time points and durations are counts of ticks
    and seconds. *)
Record TaskContext : Type := mkContext {
  workerName : string;
  startTime : Z;
  timeout : Z;
  status : TASK_STATUS;
  exitCode : Z;
  trace : list trace_line
}.

(** [explicit TaskContext (std::string name, const uint32_t timeout = DEFAULT_TIMEOUT_TASK)]:
    [workerName(std::move(name)), timeout(std::chrono::seconds(timeout)),
     status(TASK_STATE_IDLE), exitCode(0)]; the start time is the
    default time point. *)
Definition create (name : string) (timeout_ : Z) : TaskContext :=
  mkContext name 0 (convert uint32_t timeout_) TASK_STATE_IDLE 0 [].

Definition LOG_TRACE (line : trace_line) : Method.t TaskContext unit :=
  fun c => (tt, mkContext (workerName c) (startTime c) (timeout c) (status c)
                  (exitCode c) (trace c ++ [line])).

Definition GetWorkerName : Method.t TaskContext string := Method.read workerName.

(** [startTime = start; LOG_TRACE (...)]. *)
Definition SetStartTime (start : Z) : Method.t TaskContext unit :=
  _ <- (fun c => (tt, mkContext (workerName c) start (timeout c) (status c)
                        (exitCode c) (trace c))) ;;
  name <- Method.read workerName ;;
  now_ <- Method.read startTime ;;
  LOG_TRACE (StartTimeLine name now_).

Definition GetStartTime : Method.t TaskContext Z := Method.read startTime.

(** [timeout.store (n_timeout, std::memory_order_release)]. *)
Definition SetTimeOut (n_timeout : Z) : Method.t TaskContext unit :=
  fun c => (tt, mkContext (workerName c) (startTime c) n_timeout (status c)
                  (exitCode c) (trace c)).

Definition GetTimeOut : Method.t TaskContext Z := Method.read timeout.

(** [status.store (n_status, ...); LOG_TRACE (..., status.load (...), '.')]. *)
Definition SetStatus (n_status : TASK_STATUS) : Method.t TaskContext unit :=
  _ <- (fun c => (tt, mkContext (workerName c) (startTime c) (timeout c) n_status
                        (exitCode c) (trace c))) ;;
  name <- Method.read workerName ;;
  loaded <- Method.read status ;;
  LOG_TRACE (StatusLine name loaded).

Definition GetStatus : Method.t TaskContext TASK_STATUS := Method.read status.

(** [exitCode.store (new_code, std::memory_order_relaxed)], with
    [new_code] an [int32_t]. *)
Definition SetExitCode (new_code : Z) : Method.t TaskContext unit :=
  fun c => (tt, mkContext (workerName c) (startTime c) (timeout c) (status c)
                  (convert int32_t new_code) (trace c)).

Definition GetExitCode : Method.t TaskContext Z := Method.read exitCode.

(** A call of one of the four setters, and a run of such calls. *)
Inductive setter : Type :=
| CallSetStartTime (start : Z)
| CallSetTimeOut (n_timeout : Z)
| CallSetStatus (n_status : TASK_STATUS)
| CallSetExitCode (new_code : Z).

Definition call (op : setter) : Method.t TaskContext unit :=
  match op with
  | CallSetStartTime start => SetStartTime start
  | CallSetTimeOut n => SetTimeOut n
  | CallSetStatus s => SetStatus s
  | CallSetExitCode code => SetExitCode code
  end.

Fixpoint run (ops : list setter) (c : TaskContext) : TaskContext :=
  match ops with
  | [] => c
  | op :: rest => run rest (Method.after (call op) c)
  end.

(** The four members a setter can store to, the one a call stores to
    and the value it stores; a status is observed by its enumerator
    value. *)
Inductive member : Type := StartTime | TimeOut | Status | ExitCode.

Definition member_eqb (m1 m2 : member) : bool :=
  match m1, m2 with
  | StartTime, StartTime | TimeOut, TimeOut | Status, Status | ExitCode, ExitCode => true
  | _, _ => false
  end.

Definition target (op : setter) : member :=
  match op with
  | CallSetStartTime _ => StartTime
  | CallSetTimeOut _ => TimeOut
  | CallSetStatus _ => Status
  | CallSetExitCode _ => ExitCode
  end.

Definition stored (op : setter) : Z :=
  match op with
  | CallSetStartTime start => start
  | CallSetTimeOut n => n
  | CallSetStatus s => status_code s
  | CallSetExitCode code => convert int32_t code
  end.

(** What the getter of a member returns. *)
Definition member_value (m : member) (c : TaskContext) : Z :=
  match m with
  | StartTime => Method.result GetStartTime c
  | TimeOut => Method.result GetTimeOut c
  | Status => status_code (Method.result GetStatus c)
  | ExitCode => Method.result GetExitCode c
  end.

(** The statuses a trace reports, oldest first. *)
Fixpoint statuses (lines : list trace_line) : list TASK_STATUS :=
  match lines with
  | [] => []
  | StatusLine _ s :: rest => s :: statuses rest
  | StartTimeLine _ _ :: rest => statuses rest
  end.

(** The statuses a run of calls sets, in call order. *)
Fixpoint statuses_set (ops : list setter) : list TASK_STATUS :=
  match ops with
  | [] => []
  | CallSetStatus s :: rest => s :: statuses_set rest
  | _ :: rest => statuses_set rest
  end.

End task.

(** * Properties *)

Example getHexValue_ex1 :
  text.getHexValue uint8_t 12 2 true = "0C"%string.
Proof. reflexivity. Qed.

Example getHexValue_ex2 :
  text.getHexValue signed_char (-1) 2 true = "FFFFFFFFFFFFFFFF"%string.
Proof. reflexivity. Qed.

Example getHexValue_ex3 :
  text.getHexValue uint16_t 171 4 false = "00ab"%string.
Proof. reflexivity. Qed.


(** ** Strings *)

Lemma length_append (s1 s2 : string) :
  String.length (s1 ++ s2) = (String.length s1 + String.length s2)%nat.
Proof. induction s1 as [|c s1 IH]; simpl; [reflexivity | now rewrite IH]. Qed.

Lemma append_assoc (s1 s2 s3 : string) :
  ((s1 ++ s2) ++ s3 = s1 ++ (s2 ++ s3))%string.
Proof. induction s1 as [|c s1 IH]; simpl; [reflexivity | now rewrite IH]. Qed.

Lemma append_empty_r (s : string) : (s ++ "" = s)%string.
Proof. induction s as [|c s IH]; simpl; [reflexivity | now rewrite IH]. Qed.

Lemma length_fill (c : ascii) (n : nat) : String.length (text.fill c n) = n.
Proof. induction n as [|n IH]; simpl; [reflexivity | now rewrite IH]. Qed.

Lemma value_from_append (s1 s2 : string) (acc : Z) :
  hex.value_from (s1 ++ s2) acc = hex.value_from s2 (hex.value_from s1 acc).
Proof.
  revert acc. induction s1 as [|c s1 IH]; intros acc; simpl.
  - reflexivity.
  - apply IH.
Qed.

Lemma value_from_fill_zero (n : nat) : hex.value_from (text.fill "0" n) 0 = 0.
Proof. induction n as [|n IH]; simpl; [reflexivity | exact IH]. Qed.

Lemma all_upper_digits_append (s1 s2 : string) :
  hex.all_upper_digits (s1 ++ s2) = hex.all_upper_digits s1 && hex.all_upper_digits s2.
Proof.
  induction s1 as [|c s1 IH]; simpl; [reflexivity |].
  now rewrite IH, andb_assoc.
Qed.

(** ** Hexadecimal digits *)

Ltac each_digit d H :=
  assert (d = 0 \/ d = 1 \/ d = 2 \/ d = 3 \/ d = 4 \/ d = 5 \/ d = 6 \/ d = 7 \/
          d = 8 \/ d = 9 \/ d = 10 \/ d = 11 \/ d = 12 \/ d = 13 \/ d = 14 \/ d = 15)
    as H by lia;
  repeat (destruct H as [H | H]; [subst d | ]); [.. | subst d].

Lemma digit_value_hex_digit (upper : bool) (d : Z) :
  0 <= d < 16 -> hex.digit_value (text.hex_digit upper d) = d.
Proof.
  intros Hd. each_digit d H; destruct upper; reflexivity.
Qed.

Lemma hex_digit_upper (d : Z) :
  0 <= d < 16 -> hex.is_upper_digit (text.hex_digit true d) = true.
Proof.
  intros Hd. each_digit d H; reflexivity.
Qed.

Lemma hex_digits_value (fuel : nat) (upper : bool) :
  forall n, 0 <= n < 16 ^ Z.of_nat fuel ->
  hex.value (text.hex_digits fuel upper n) = n.
Proof.
  unfold hex.value.
  induction fuel as [|fuel IH]; intros n Hn.
  - simpl in *. lia.
  - cbn [text.hex_digits]. destruct (Z.ltb_spec n 16) as [Hlt | Hge].
    + simpl. rewrite digit_value_hex_digit by lia. lia.
    + rewrite value_from_append, IH.
      * cbn [hex.value_from]. rewrite digit_value_hex_digit by (apply Z.mod_pos_bound; lia).
        pose proof (Z.div_mod n 16 ltac:(lia)). lia.
      * rewrite Nat2Z.inj_succ, Z.pow_succ_r in Hn by lia.
        split; [apply Z.div_pos; lia | apply Z.div_lt_upper_bound; lia].
Qed.

(** The digit string has no leading zero: a value of at least [16^k]
    prints more than [k] digits. *)
Lemma hex_digits_long (fuel : nat) (upper : bool) :
  forall n k, 0 <= n < 16 ^ Z.of_nat fuel -> 16 ^ Z.of_nat k <= n ->
  (k < String.length (text.hex_digits fuel upper n))%nat.
Proof.
  induction fuel as [|fuel IH]; intros n k Hn Hk.
  - simpl in Hn. pose proof (Z.pow_pos_nonneg 16 (Z.of_nat k)). lia.
  - cbn [text.hex_digits]. destruct (Z.ltb_spec n 16) as [Hlt | Hge].
    + destruct k as [|k]; simpl; [lia |].
      rewrite Nat2Z.inj_succ, Z.pow_succ_r in Hk by lia.
      pose proof (Z.pow_pos_nonneg 16 (Z.of_nat k)). lia.
    + rewrite length_append. simpl.
      destruct k as [|k]; [lia |].
      rewrite Nat2Z.inj_succ, Z.pow_succ_r in Hn, Hk by lia.
      assert (k < String.length (text.hex_digits fuel upper (n / 16)))%nat.
      { apply IH.
        - split; [apply Z.div_pos; lia | apply Z.div_lt_upper_bound; lia].
        - apply Z.div_le_lower_bound; lia. }
      lia.
Qed.

(** And it is no longer than the value needs. *)
Lemma hex_digits_short (fuel : nat) (upper : bool) :
  forall n k, 0 <= n < 16 ^ Z.of_nat (S k) ->
  (String.length (text.hex_digits fuel upper n) <= S k)%nat.
Proof.
  induction fuel as [|fuel IH]; intros n k Hn.
  - simpl. lia.
  - cbn [text.hex_digits]. destruct (Z.ltb_spec n 16) as [Hlt | Hge].
    + simpl. lia.
    + rewrite length_append. simpl.
      destruct k as [|k]; [simpl in Hn; lia |].
      rewrite Nat2Z.inj_succ, Z.pow_succ_r in Hn by lia.
      assert (String.length (text.hex_digits fuel upper (n / 16)) <= S k)%nat.
      { apply IH.
        split; [apply Z.div_pos; lia | apply Z.div_lt_upper_bound; lia]. }
      lia.
Qed.

Lemma convert_size_t_range (v : Z) : 0 <= convert size_t v < 16 ^ 16.
Proof.
  unfold convert. simpl is_signed. cbv iota. simpl andb. cbv iota.
  change (2 ^ bits size_t) with (16 ^ 16).
  apply Z.mod_pos_bound. reflexivity.
Qed.

Lemma convert_uint16_t_range (v : Z) : 0 <= convert uint16_t v < 65536.
Proof.
  unfold convert. simpl is_signed. simpl andb. cbv iota.
  change (2 ^ bits uint16_t) with 65536.
  apply Z.mod_pos_bound. reflexivity.
Qed.

(** ** [getHexValue] *)

Lemma put_hex_length (upper : bool) (width value : Z) :
  0 <= width ->
  Z.of_nat (String.length (text.put_hex upper width value)) =
  Z.max width (Z.of_nat (String.length (text.hex_digits 16 upper value))).
Proof.
  intros Hw. unfold text.put_hex. rewrite length_append, length_fill. lia.
Qed.

Lemma put_hex_value (upper : bool) (width value : Z) :
  0 <= value < 16 ^ 16 ->
  hex.value (text.put_hex upper width value) = value.
Proof.
  intros Hv. unfold text.put_hex, hex.value.
  rewrite value_from_append, value_from_fill_zero.
  exact (hex_digits_value 16 upper value Hv).
Qed.

(** C10: [getHexValue (v, w, upper)] is the hexadecimal digits of [v]
    converted to [std::size_t], padded on the left with zeros up to [w]
    characters and never cut: the digits denote the converted value and
    carry no leading zero, the result is as long as the larger of [w] and
    the digit count, a value that fits [w >= 1] digits gives exactly [w]
    characters, and a value that needs more than [w] digits gives a
    string strictly longer than [w]. *)
Theorem getHexValue_pads_never_truncates
        (T : IntType) (data width : Z) (upper : bool) :
  let value := convert size_t data in
  let w := convert uint16_t width in
  let digits := text.hex_digits 16 upper value in
  let r := text.getHexValue T data width upper in
  r = (text.fill "0" (Z.to_nat w - String.length digits) ++ digits)%string /\
  hex.value digits = value /\
  hex.value r = value /\
  (forall k, 16 ^ Z.of_nat k <= value -> (k < String.length digits)%nat) /\
  Z.of_nat (String.length r) = Z.max w (Z.of_nat (String.length digits)) /\
  (1 <= w -> value < 16 ^ w -> Z.of_nat (String.length r) = w) /\
  (16 ^ w <= value -> w < Z.of_nat (String.length r)).
Proof.
  intros value w digits r.
  pose proof (convert_size_t_range data) as Hv. fold value in Hv.
  pose proof (convert_uint16_t_range width) as Hw. fold w in Hw.
  assert (Hlen : Z.of_nat (String.length r)
                 = Z.max w (Z.of_nat (String.length digits))).
  { apply put_hex_length. lia. }
  split; [reflexivity |].
  split; [exact (hex_digits_value 16 upper value Hv) |].
  split; [exact (put_hex_value upper w value Hv) |].
  split; [intros k Hk; exact (hex_digits_long 16 upper value k Hv Hk) |].
  split; [exact Hlen |].
  split.
  - intros Hw1 Hfit. rewrite Hlen.
    assert (String.length digits <= S (Z.to_nat w - 1))%nat as Hshort.
    { apply hex_digits_short.
      replace (Z.of_nat (S (Z.to_nat w - 1))) with w by lia. lia. }
    lia.
  - intros Hbig. rewrite Hlen.
    assert (Z.to_nat w < String.length digits)%nat as Hlong.
    { apply (hex_digits_long 16 upper value (Z.to_nat w) Hv).
      rewrite Z2Nat.id by lia. exact Hbig. }
    lia.
Qed.

(** A negative [signed char] is sign-extended by the conversion to
    [std::size_t] and prints sixteen digits under a width of two. *)
Lemma getHexValue_signed_char_witness :
  16 ^ convert uint16_t 2 <= convert size_t (-1) /\
  text.getHexValue signed_char (-1) 2 true = "FFFFFFFFFFFFFFFF"%string /\
  convert uint16_t 2 < Z.of_nat (String.length (text.getHexValue signed_char (-1) 2 true)).
Proof.
  assert (H : 16 ^ convert uint16_t 2 <= convert size_t (-1)) by (vm_compute; discriminate).
  split; [exact H |].
  split; [reflexivity |].
  exact (proj2 (proj2 (proj2 (proj2 (proj2 (proj2
    (getHexValue_pads_never_truncates signed_char (-1) 2 true)))))) H).
Defined.

(** ** [getHexString] *)

Lemma getHexValue_byte (b : byte) :
  text.getHexValue std_byte (BinaryDataEngine.byte_val b)
    (convert uint16_t text.default_width * sizeof std_byte) text.default_upper
  = hex.pair_of true (BinaryDataEngine.byte_val b).
Proof. destruct b; vm_compute; reflexivity. Qed.

Lemma pair_of_byte_upper (b : byte) :
  hex.all_upper_digits (hex.pair_of true (BinaryDataEngine.byte_val b)) = true.
Proof. destruct b; vm_compute; reflexivity. Qed.

Lemma getHexString_loop_bytes (bytes : list byte) :
  forall result,
  text.getHexString_loop std_byte (map BinaryDataEngine.byte_val bytes)
    text.default_width text.default_upper result
  = (result ++ hex.pairs true (map BinaryDataEngine.byte_val bytes))%string.
Proof.
  induction bytes as [|b bytes IH]; intros result.
  - simpl. now rewrite append_empty_r.
  - cbn [map text.getHexString_loop hex.pairs].
    rewrite IH, getHexValue_byte. apply append_assoc.
Qed.

Lemma pairs_length (upper : bool) (data : list Z) :
  String.length (hex.pairs upper data) = (2 * List.length data)%nat.
Proof.
  induction data as [|b data IH]; [reflexivity |].
  cbn [hex.pairs List.length]. rewrite length_append, IH. simpl. lia.
Qed.

Lemma pairs_upper (bytes : list byte) :
  hex.all_upper_digits (hex.pairs true (map BinaryDataEngine.byte_val bytes)) = true.
Proof.
  induction bytes as [|b bytes IH]; [reflexivity |].
  cbn [map hex.pairs]. now rewrite all_upper_digits_append, pair_of_byte_upper, IH.
Qed.

Lemma pair_of_upper_pair (b : byte) :
  hex.pair_of true (BinaryDataEngine.byte_val b) = hexdump.upper_pair b.
Proof. destruct b; vm_compute; reflexivity. Qed.

Lemma pairs_upper_pairs (bytes : list byte) :
  hex.pairs true (map BinaryDataEngine.byte_val bytes) = hexdump.upper_pairs bytes.
Proof.
  induction bytes as [|b bytes IH]; [reflexivity |].
  cbn [map hex.pairs hexdump.upper_pairs]. now rewrite pair_of_upper_pair, IH.
Qed.

Lemma decode_upper_pair (b : byte) (rest : string) :
  hexdump.decode (hexdump.upper_pair b ++ rest) = b :: hexdump.decode rest.
Proof.
  unfold hexdump.upper_pair. cbn [append hexdump.decode]. f_equal.
  destruct b; vm_compute; reflexivity.
Qed.

Lemma decode_upper_pairs (bytes : list byte) :
  hexdump.decode (hexdump.upper_pairs bytes) = bytes.
Proof.
  induction bytes as [|b bytes IH]; [reflexivity |].
  cbn [hexdump.upper_pairs]. now rewrite decode_upper_pair, IH.
Qed.

(** C5: with the default arguments the hex string of [n] bytes has
    exactly [2 * n] characters: the two uppercase hexadecimal digits of
    each byte, high nibble first, in byte order, with nothing between
    them. The digits are those of the table [0123456789ABCDEF] at the
    byte's high and low nibble, every character is one of them, and
    reading the string back pair by pair returns the bytes. *)
Theorem getHexString_default_two_digits_per_byte (bytes : list byte) :
  let data := map BinaryDataEngine.byte_val bytes in
  let s := text.getHexString std_byte data (List.length bytes)
             text.default_width text.default_upper in
  String.length s = (2 * List.length bytes)%nat /\
  s = hexdump.upper_pairs bytes /\
  hexdump.decode s = bytes /\
  s = hex.pairs true data /\
  hex.all_upper_digits s = true.
Proof.
  intros data s.
  assert (Hs : s = hex.pairs true data).
  { unfold s, text.getHexString, data.
    rewrite <- (length_map BinaryDataEngine.byte_val bytes), firstn_all.
    now rewrite getHexString_loop_bytes. }
  rewrite Hs. split; [| split; [| split; [| split]]].
  - unfold data. now rewrite pairs_length, length_map.
  - apply pairs_upper_pairs.
  - unfold data. rewrite pairs_upper_pairs. apply decode_upper_pairs.
  - reflexivity.
  - apply pairs_upper.
Qed.

(** The digits of single bytes, read off the table. *)
Example upper_pairs_samples :
  hexdump.upper_pairs [x0c; xab; xff; x00; x9a] = "0CABFF009A"%string.
Proof. reflexivity. Qed.

(** Elements of a signed character type are another matter: a negative
    one is sign-extended by [getHexValue] and takes sixteen characters. *)
Lemma getHexString_signed_char_extends :
  text.getHexString signed_char [65; -128] 2 text.default_width text.default_upper
  = "41FFFFFFFFFFFFFF80"%string.
Proof. reflexivity. Qed.

(** ** [file::ErrorState] *)

(** C8: [file::ErrorState] is [std::numeric_limits<std::size_t>::max()]:
    a value of the size type that no value of the size type exceeds, the
    all-ones pattern [2^64 - 1] that [-1] converts to. *)
Theorem ErrorState_is_size_t_max :
  file.ErrorState = numeric_limits_max size_t /\
  file.ErrorState = 18446744073709551615 /\
  in_range size_t file.ErrorState /\
  (forall v, in_range size_t v -> v <= file.ErrorState) /\
  convert size_t (-1) = file.ErrorState.
Proof.
  split; [reflexivity |].
  split; [reflexivity |].
  split; [unfold in_range; vm_compute; split; discriminate |].
  split; [| reflexivity].
  intros v [_ Hmax]. exact Hmax.
Qed.

(** ** [Data<Type>] *)

Lemma read_after {S A : Type} (f : S -> A) (s : S) :
  Method.after (Method.read f) s = s.
Proof. reflexivity. Qed.

Lemma well_formed_array {A : Type} (d : Data.t A) (i : Z) :
  Data.well_formed d -> 0 <= i < Data.length d ->
  exists a, Data.data d = Some a /\ 0 < Data.base a /\
            Data.length d = Z.of_nat (List.length (Data.elems a)).
Proof.
  unfold Data.well_formed. intros Hwf Hi.
  destruct (Data.data d) as [a |].
  - exists a. tauto.
  - lia.
Qed.

(** C6: [GetAt] returns the null pointer exactly for the indices at or
    past the length; for an index below the length it returns the address
    of element [index], which reads as that element; and [Size], [Get] and
    [GetAt] leave the container (array and length) as it was. *)
Theorem GetAt_null_iff_out_of_range
        {A : Type} (elem_size : Z) (d : Data.t A) (index : Z) :
  0 < elem_size -> 0 <= index -> Data.well_formed d ->
  (Method.result (Data.GetAt elem_size index) d = Data.nullptr
   <-> Data.length d <= index) /\
  (index < Data.length d ->
   Method.result (Data.GetAt elem_size index) d = Data.address_of elem_size d index /\
   exists a x,
     Data.data d = Some a /\
     nth_error (Data.elems a) (Z.to_nat index) = Some x /\
     Data.deref elem_size d (Method.result (Data.GetAt elem_size index) d) = Some x) /\
  Method.after (Data.GetAt elem_size index) d = d /\
  Method.after Data.Size d = d /\
  Method.after Data.Get d = d.
Proof.
  intros Hsize Hindex Hwf.
  unfold Data.GetAt, Data.Size, Data.Get, Method.result, Method.read. cbn [fst].
  split; [| split; [| repeat split]].
  - destruct (Z.ltb_spec index (Data.length d)) as [Hlt | Hge].
    + destruct (well_formed_array d index Hwf (conj Hindex Hlt)) as (a & Ha & Hbase & _).
      unfold Data.address_of, Data.get_, Data.nullptr. rewrite Ha. nia.
    + split; [intros _; exact Hge | reflexivity].
  - intros Hlt.
    destruct (Z.ltb_spec index (Data.length d)) as [_ | Hge]; [| lia].
    split; [reflexivity |].
    destruct (well_formed_array d index Hwf (conj Hindex Hlt)) as (a & Ha & Hbase & Hlen).
    destruct (nth_error (Data.elems a) (Z.to_nat index)) as [x |] eqn:Hx.
    + exists a, x. split; [exact Ha | split; [exact Hx |]].
      unfold Data.deref, Data.address_of, Data.get_. rewrite Ha.
      replace (Data.base a + index * elem_size - Data.base a)
        with (index * elem_size) by lia.
      rewrite Z.mod_mul, Z.div_mul by lia.
      destruct (Z.leb_spec (Data.base a) (Data.base a + index * elem_size)); [| nia].
      simpl. exact Hx.
    + apply nth_error_None in Hx. lia.
Qed.

Lemma GetAt_witness :
  let d := Data.mk (Some (Data.mkArray 4096 ["a"; "b"; "c"]%char)) 3 in
  Method.result (Data.GetAt 1 1) d = 4097 /\
  Data.deref 1 d (Method.result (Data.GetAt 1 1) d) = Some "b"%char /\
  (Method.result (Data.GetAt 1 3) d = Data.nullptr <-> Data.length d <= 3).
Proof.
  intros d.
  assert (Hwf : Data.well_formed d) by (split; reflexivity).
  split; [reflexivity |]. split; [reflexivity |].
  exact (proj1 (GetAt_null_iff_out_of_range 1 d 3 ltac:(lia) ltac:(lia) Hwf)).
Defined.

(** ** [is_pod_type] *)

(** C7, as the code has it: [is_pod_type<T>::value] holds exactly for the
    types that are both trivial and standard-layout. Each of them is
    trivially copyable. *)
Theorem is_pod_type_iff_trivial_and_standard_layout (T : traits.cpp_type) :
  (traits.is_pod_type T = true <->
   traits.is_trivial T = true /\ traits.is_standard_layout T = true) /\
  (traits.is_pod_type T = true -> traits.is_trivially_copyable T = true).
Proof.
  unfold traits.is_pod_type, traits.is_trivial.
  destruct (traits.is_trivially_copyable T), (traits.has_trivial_default_ctor T),
    (traits.is_standard_layout T); simpl; intuition congruence.
Qed.

(** C7, as stated, fails: [struct Counter { int value = 0; }] is
    trivially copyable and is not a POD type for [is_pod_type]. *)
Lemma is_pod_type_rejects_trivially_copyable :
  ~ (traits.is_pod_type traits.Counter = true <->
     traits.is_trivially_copyable traits.Counter = true).
Proof.
  intros [_ H]. specialize (H eq_refl). discriminate H.
Qed.

(** A class with members of different access is trivially copyable and
    trivial, yet not standard-layout, and is refused as well. *)
Lemma is_pod_type_rejects_mixed_access :
  traits.is_trivially_copyable traits.Mixed = true /\
  traits.is_trivial traits.Mixed = true /\
  traits.is_pod_type traits.Mixed = false.
Proof. repeat split. Qed.

(** ** [GetRandomValue] *)

Section Conversions.

Variable T : IntType.
Hypothesis HT : 1 <= sizeof T.

Lemma pow2_bits :
  2 ^ bits T = 2 * 2 ^ (bits T - 1) /\ 0 < 2 ^ (bits T - 1).
Proof.
  unfold bits. split.
  - rewrite <- Z.pow_succ_r by lia. f_equal. lia.
  - apply Z.pow_pos_nonneg; lia.
Qed.

Lemma convert_in_range (v : Z) : in_range T v -> convert T v = v.
Proof.
  destruct pow2_bits as [Hpow Hpos].
  unfold in_range, numeric_limits_min, numeric_limits_max, convert.
  destruct (is_signed T); cbn [andb]; rewrite Hpow; intros Hv.
  - destruct (Z.neg_nonneg_cases v) as [Hneg | Hnn].
    + rewrite <- (Z.mod_unique v (2 * 2 ^ (bits T - 1)) (-1)
                   (v + 2 * 2 ^ (bits T - 1))) by lia.
      destruct (Z.leb_spec (2 ^ (bits T - 1)) (v + 2 * 2 ^ (bits T - 1))); lia.
    + rewrite Z.mod_small by lia.
      destruct (Z.leb_spec (2 ^ (bits T - 1)) v); lia.
  - apply Z.mod_small. lia.
Qed.

Lemma convert_range (v : Z) : in_range T (convert T v).
Proof.
  destruct pow2_bits as [Hpow Hpos].
  unfold in_range, numeric_limits_min, numeric_limits_max, convert.
  pose proof (Z.mod_pos_bound v (2 ^ bits T) ltac:(lia)) as Hm.
  destruct (is_signed T); cbn [andb].
  - destruct (Z.leb_spec (2 ^ (bits T - 1)) (v mod 2 ^ bits T)); lia.
  - lia.
Qed.

Lemma convert_idempotent (v : Z) : convert T (convert T v) = convert T v.
Proof. apply convert_in_range, convert_range. Qed.

(** Whatever [begin + 1] or [end - 1] evaluates to is the sum reduced into
    [T]. *)
Lemma offset_value (v delta a : Z) :
  random.offset T v delta = Some a -> a = convert T (v + delta).
Proof.
  unfold random.offset.
  destruct (is_signed (random.promoted T)) eqn:Hs.
  - destruct (random.in_range_b (random.promoted T) (v + delta)); [| discriminate].
    intros H; now injection H as <-.
  - unfold random.promoted in *.
    destruct (sizeof T <? sizeof int_); [discriminate Hs |].
    rewrite convert_idempotent. intros H; now injection H as <-.
Qed.

(** Away from the edge of [T] the sum is computed without overflow or
    wrap-around. *)
Lemma offset_inside (v delta : Z) :
  in_range T v -> in_range T (v + delta) -> -1 <= delta <= 1 ->
  random.offset T v delta = Some (v + delta).
Proof.
  intros Hv Hvd Hd. unfold random.offset, random.promoted.
  destruct (Z.ltb_spec (sizeof T) (sizeof int_)) as [Hnarrow | Hwide].
  - cbn [is_signed int_ int32_t].
    assert (Hint : random.in_range_b int32_t (v + delta) = true).
    { change (sizeof int_) with 4 in Hnarrow.
      assert (Hle : 2 ^ bits T <= 2 ^ 24)
        by (apply Z.pow_le_mono_r; unfold bits; lia).
      destruct pow2_bits as [Hpow Hpos].
      unfold in_range, numeric_limits_min, numeric_limits_max in Hvd.
      unfold random.in_range_b.
      change (numeric_limits_min int32_t) with (-2147483648).
      change (numeric_limits_max int32_t) with 2147483647.
      change (2 ^ 24) with 16777216 in Hle.
      destruct (is_signed T);
        apply andb_true_intro; split; apply Z.leb_le; lia. }
    change int_ with int32_t. rewrite Hint. now rewrite convert_in_range.
  - destruct (is_signed T).
    + unfold random.in_range_b.
      destruct Hvd as [Hlo Hhi].
      apply Z.leb_le in Hlo, Hhi. rewrite Hlo, Hhi. cbn [andb].
      now rewrite convert_in_range by (split; apply Z.leb_le; assumption).
    + rewrite convert_idempotent.
      now rewrite convert_in_range.
Qed.

End Conversions.

Lemma uniform_int_distribution_range (g a b v : Z) :
  random.uniform_int_distribution g a b = Some v -> a <= b /\ a <= v <= b.
Proof.
  unfold random.uniform_int_distribution.
  destruct (Z.leb_spec a b) as [Hab | Hab]; [| discriminate].
  intros H; injection H as <-.
  pose proof (Z.mod_pos_bound g (b - a + 1) ltac:(lia)). lia.
Qed.

(** C4, as the code has it: the distribution is parameterised with
    [begin + 1] and [end - 1] reduced into [T], and every value returned
    lies between these two. When [begin] is not the largest and [end] not
    the smallest value of [T] the range is [[begin + 1, end - 1]]: a
    result exists when [begin + 1 <= end - 1], and there is none when
    [end - 1 < begin + 1], which covers [begin == end]. *)
Theorem GetRandomValue_range (T : IntType) (g begin end_ : Z) :
  1 <= sizeof T -> in_range T begin -> in_range T end_ ->
  (forall v, random.GetRandomValue T g begin end_ = Some v ->
     random.offset T begin 1 = Some (convert T (begin + 1)) /\
     random.offset T end_ (-1) = Some (convert T (end_ - 1)) /\
     convert T (begin + 1) <= v <= convert T (end_ - 1)) /\
  (begin < numeric_limits_max T -> numeric_limits_min T < end_ ->
     (forall v, random.GetRandomValue T g begin end_ = Some v ->
        begin + 1 <= v <= end_ - 1) /\
     (begin + 1 <= end_ - 1 ->
        exists v, random.GetRandomValue T g begin end_ = Some v) /\
     (end_ - 1 < begin + 1 -> random.GetRandomValue T g begin end_ = None)).
Proof.
  intros HT Hb He. split.
  - intros v. unfold random.GetRandomValue.
    destruct (random.offset T begin 1) as [a |] eqn:Ha; [| discriminate].
    destruct (random.offset T end_ (-1)) as [b |] eqn:Hb'; [| discriminate].
    apply (offset_value T HT) in Ha, Hb'. subst a b.
    intros Hv. apply uniform_int_distribution_range in Hv.
    replace (end_ + -1) with (end_ - 1) in * by lia.
    repeat split; lia.
  - intros Hbmax Hemin.
    assert (Ha : random.offset T begin 1 = Some (begin + 1))
      by (apply (offset_inside T HT); unfold in_range in *; lia).
    assert (Hb' : random.offset T end_ (-1) = Some (end_ + -1))
      by (apply (offset_inside T HT); unfold in_range in *; lia).
    unfold random.GetRandomValue. rewrite Ha, Hb'.
    unfold random.uniform_int_distribution.
    destruct (Z.leb_spec (begin + 1) (end_ + -1)) as [Hle | Hgt].
    + split; [| split].
      * intros v H; injection H as <-.
        pose proof (Z.mod_pos_bound g (end_ + -1 - (begin + 1) + 1) ltac:(lia)). lia.
      * intros _. eexists. reflexivity.
      * intros Habs. lia.
    + split; [| split].
      * intros v H; discriminate H.
      * intros Habs. lia.
      * intros _. reflexivity.
Qed.

Lemma GetRandomValue_range_witness :
  (forall v, random.GetRandomValue uint32_t 7 10 20 = Some v -> 10 + 1 <= v <= 20 - 1) /\
  random.GetRandomValue uint32_t 7 10 20 = Some 18 /\
  random.GetRandomValue uint32_t 7 10 10 = None /\
  random.GetRandomValue int32_t 7 2147483647 2147483647 = None.
Proof.
  assert (H10 : in_range uint32_t 10) by (split; discriminate).
  assert (H20 : in_range uint32_t 20) by (split; discriminate).
  pose proof (GetRandomValue_range uint32_t 7 10 20
                ltac:(discriminate) H10 H20) as [_ Hin].
  specialize (Hin eq_refl eq_refl).
  split; [exact (proj1 Hin) |].
  repeat split.
Defined.

(** C4, as stated, fails: with [begin == end == 0] of the default type
    [uint32_t], [end - 1] wraps to the largest value, [a <= b] holds, and
    the call returns a value, here 42, that is nowhere near [[0, 0]]. *)
Lemma GetRandomValue_equal_bounds_defined :
  random.offset uint32_t 0 1 = Some 1 /\
  random.offset uint32_t 0 (-1) = Some 4294967295 /\
  random.GetRandomValue uint32_t 41 0 0 = Some 42 /\
  random.GetRandomValue uint32_t 41 0 0 <> None.
Proof. repeat split. discriminate. Qed.

(** ** [GlobalInfo::GetCallback] *)

(** C9: a lookup with a module out of range, with no table installed for
    the module, or with a callback at or past the module's table size
    returns [nullptr], and the registry's tables are the same after it as
    before. *)
Theorem GetCallback_failing_lookup
        (FRAMEWORK_MODULE_TYPES_SIZE : Z) (GetModuleCallbacksSize : Z -> Z)
        {Functor Type_ : Type} (dynamic_cast : Functor -> option Type_)
        (module callback : Z) (gi : GlobalInfo.t Functor) :
  FRAMEWORK_MODULE_TYPES_SIZE <= module \/
  nth (Z.to_nat module) (GlobalInfo.callbacks gi) None = None \/
  GetModuleCallbacksSize module <= callback ->
  let lookup := GlobalInfo.GetCallback FRAMEWORK_MODULE_TYPES_SIZE
                  GetModuleCallbacksSize dynamic_cast module callback in
  Method.result lookup gi = None /\
  GlobalInfo.callbacks (Method.after lookup gi) = GlobalInfo.callbacks gi.
Proof.
  intros Hfail lookup. unfold lookup, GlobalInfo.GetCallback.
  destruct (Z.leb_spec FRAMEWORK_MODULE_TYPES_SIZE module) as [Hmod | Hmod].
  - split; reflexivity.
  - unfold Method.result, Method.after, Method.bind, GlobalInfo.module_table,
      Method.read.
    destruct (nth (Z.to_nat module) (GlobalInfo.callbacks gi) None) as [tbl |] eqn:Htbl.
    + destruct (Z.ltb_spec callback (GetModuleCallbacksSize module)) as [Hcb | Hcb].
      * exfalso. destruct Hfail as [H | [H | H]]; [lia | discriminate H | lia].
      * split; reflexivity.
    + split; reflexivity.
Qed.

(** A lookup that passes the three checks hands back the installed
    functor, cast to the type asked for, and touches nothing. *)
Lemma GetCallback_found
      (FRAMEWORK_MODULE_TYPES_SIZE : Z) (GetModuleCallbacksSize : Z -> Z)
      {Functor Type_ : Type} (dynamic_cast : Functor -> option Type_)
      (module callback : Z) (gi : GlobalInfo.t Functor) (tbl : list (option Functor)) :
  module < FRAMEWORK_MODULE_TYPES_SIZE ->
  nth (Z.to_nat module) (GlobalInfo.callbacks gi) None = Some tbl ->
  callback < GetModuleCallbacksSize module ->
  GlobalInfo.GetCallback FRAMEWORK_MODULE_TYPES_SIZE GetModuleCallbacksSize
    dynamic_cast module callback gi
  = (GlobalInfo.cast_slot Functor Type_ dynamic_cast tbl callback, gi).
Proof.
  intros Hmod Htbl Hcb. unfold GlobalInfo.GetCallback.
  destruct (Z.leb_spec FRAMEWORK_MODULE_TYPES_SIZE module); [lia |].
  unfold Method.bind, GlobalInfo.module_table, Method.read. rewrite Htbl.
  destruct (Z.ltb_spec callback (GetModuleCallbacksSize module)); [reflexivity | lia].
Qed.

Lemma GetCallback_failing_lookup_witness :
  let gi := GlobalInfo.mk [Some [Some 7%nat; None]; None] [] in
  let lookup m c := GlobalInfo.GetCallback 2 (fun _ => 2) (@Some nat) m c in
  (Method.result (lookup 5 0) gi = None /\
   GlobalInfo.callbacks (Method.after (lookup 5 0) gi) = GlobalInfo.callbacks gi) /\
  (Method.result (lookup 1 0) gi = None /\
   GlobalInfo.callbacks (Method.after (lookup 1 0) gi) = GlobalInfo.callbacks gi) /\
  (Method.result (lookup 0 2) gi = None /\
   GlobalInfo.callbacks (Method.after (lookup 0 2) gi) = GlobalInfo.callbacks gi) /\
  Method.result (lookup 0 0) gi = Some 7%nat.
Proof.
  intros gi lookup.
  split; [| split; [| split]].
  - apply (GetCallback_failing_lookup 2 (fun _ => 2) (@Some nat) 5 0 gi).
    left. lia.
  - apply (GetCallback_failing_lookup 2 (fun _ => 2) (@Some nat) 1 0 gi).
    right. left. reflexivity.
  - apply (GetCallback_failing_lookup 2 (fun _ => 2) (@Some nat) 0 2 gi).
    right. right. lia.
  - reflexivity.
Defined.

(** ** Bit population count of the engine *)

Section Counting.

Local Open Scope nat_scope.

Lemma seq_as_map (n s : nat) : seq s n = map (fun k => s + k) (seq 0 n).
Proof.
  revert s. induction n as [|n IH]; intros s; [reflexivity |].
  cbn [seq map]. rewrite Nat.add_0_r. f_equal.
  rewrite <- (seq_shift n 0), map_map, (IH (S s)).
  apply map_ext. intros k. lia.
Qed.

Lemma count_filter_map {A B : Type} (f : B -> bool) (g : A -> B) (l : list A) :
  List.length (filter f (map g l)) = List.length (filter (fun a => f (g a)) l).
Proof.
  induction l as [|a l IH]; [reflexivity |].
  cbn [map filter]. destruct (f (g a)); cbn [List.length]; now rewrite IH.
Qed.

(** Counting over [8 * n] bit indices is counting byte by byte. *)
Lemma count_by_bytes (f : nat -> bool) (n : nat) :
  List.length (filter f (seq 0 (8 * n)))
  = list_sum (map (fun j => List.length (filter f (seq (8 * j) 8))) (seq 0 n)).
Proof.
  induction n as [|n IH]; [reflexivity |].
  replace (8 * S n) with (8 * n + 8) by lia.
  rewrite seq_app, filter_app, length_app, IH.
  rewrite (seq_S n 0), map_app, list_sum_app.
  cbn [map]. rewrite !Nat.add_0_l.
  change (list_sum [?x]) with (x + 0). lia.
Qed.

Lemma map_nth_all {A B : Type} (g : A -> B) (l : list A) (d : A) :
  map (fun j => g (nth j l d)) (seq 0 (List.length l)) = map g l.
Proof.
  induction l as [|a l IH]; [reflexivity |].
  cbn [List.length seq map nth]. f_equal.
  rewrite <- (seq_shift (List.length l) 0), map_map. exact IH.
Qed.

Lemma list_sum_rev (l : list nat) : list_sum (rev l) = list_sum l.
Proof.
  induction l as [|a l IH]; [reflexivity |].
  cbn [rev]. rewrite list_sum_app, IH.
  change (list_sum (a :: l)) with (a + list_sum l).
  change (list_sum [a]) with (a + 0). lia.
Qed.

Import BinaryDataEngine.

Lemma Test_at (e : BinaryDataEngine.t) (j k : nat) :
  j < Size e -> k < 8 ->
  Test e (8 * j + k)
  = byte_bit (dataModeType e) (nth (GetBytePosition e j) (data e) x00) k.
Proof.
  intros Hj Hk. unfold Test, Length.
  destruct (Nat.ltb_spec (8 * j + k) (8 * Size e)) as [_ | Hge]; [| lia].
  assert (Hdiv : (8 * j + k) / 8 = j)
    by (symmetry; apply (Nat.div_unique _ 8 j k); lia).
  assert (Hmod : (8 * j + k) mod 8 = k)
    by (symmetry; apply (Nat.mod_unique _ 8 j k); lia).
  unfold GetBitPosition, GetBytePosition, byte_bit. rewrite Hdiv, Hmod.
  destruct (dataModeType e), (dataEndianType e); reflexivity.
Qed.

Lemma count_in_byte (e : BinaryDataEngine.t) (j : nat) :
  j < Size e ->
  List.length (filter (Test e) (seq (8 * j) 8))
  = byte_count (dataModeType e) (nth (GetBytePosition e j) (data e) x00).
Proof.
  intros Hj. rewrite seq_as_map, count_filter_map. unfold byte_count.
  f_equal. apply filter_ext_in. intros k Hk.
  apply in_seq in Hk. apply Test_at; lia.
Qed.

(** The bytes in the order the view walks them. *)
Lemma bytes_in_endian_order (e : BinaryDataEngine.t) (g : byte -> nat) :
  list_sum (map (fun j => g (nth (GetBytePosition e j) (data e) x00))
                (seq 0 (Size e)))
  = list_sum (map g (data e)).
Proof.
  unfold GetBytePosition, Size.
  destruct (dataModeType e), (dataEndianType e);
    try (now rewrite map_nth_all).
  rewrite <- (list_sum_rev (map g (data e))), <- map_rev.
  rewrite <- (map_nth_all g (rev (data e)) x00), length_rev.
  f_equal. apply map_ext_in. intros j Hj. apply in_seq in Hj.
  rewrite rev_nth by lia. f_equal. f_equal. lia.
Qed.

(** [Count] is the sum of the bytes' own counts, whatever the tag. *)
Lemma Count_by_bytes (e : BinaryDataEngine.t) :
  Count e = list_sum (map (byte_count (dataModeType e)) (data e)).
Proof.
  unfold Count, Length. rewrite count_by_bytes.
  rewrite <- (bytes_in_endian_order e (byte_count (dataModeType e))).
  f_equal. apply map_ext_in. intros j Hj. apply in_seq in Hj.
  apply count_in_byte. lia.
Qed.

End Counting.

(** C3: over the same bytes, [Count()] under the big-endian tag equals
    [Count()] under the little-endian tag; setting the tag moves no
    byte. *)
Theorem Count_endian_invariant (e : BinaryDataEngine.t) :
  BinaryDataEngine.data
    (BinaryDataEngine.SetDataEndianType BinaryDataEngine.DATA_BIG_ENDIAN e)
  = BinaryDataEngine.data
      (BinaryDataEngine.SetDataEndianType BinaryDataEngine.DATA_LITTLE_ENDIAN e) /\
  BinaryDataEngine.Count
    (BinaryDataEngine.SetDataEndianType BinaryDataEngine.DATA_BIG_ENDIAN e)
  = BinaryDataEngine.Count
      (BinaryDataEngine.SetDataEndianType BinaryDataEngine.DATA_LITTLE_ENDIAN e).
Proof.
  split; [reflexivity |].
  now rewrite !Count_by_bytes.
Qed.

(** The relabelled view of bytes [12 34]: the bit strings differ, the
    counts agree. *)
Example Count_relabel_12_34 :
  let little := BinaryDataEngine.mk [x12; x34] BinaryDataEngine.DATA_MODE_DEPENDENT
                  BinaryDataEngine.DATA_LITTLE_ENDIAN in
  let big := BinaryDataEngine.SetDataEndianType BinaryDataEngine.DATA_BIG_ENDIAN little in
  map (BinaryDataEngine.Test little) (seq 0 16)
  = [false; false; true; true; false; true; false; false;
     false; false; false; true; false; false; true; false] /\
  map (BinaryDataEngine.Test big) (seq 0 16)
  = [false; false; false; true; false; false; true; false;
     false; false; true; true; false; true; false; false] /\
  BinaryDataEngine.Count little = 5%nat /\ BinaryDataEngine.Count big = 5%nat.
Proof. repeat split. Qed.

(** ** The structured engine on the TCP-like header *)

Section Structured.

Import BinaryDataEngine BinaryStructuredDataEngine.


Lemma FieldOffset_cons (w : nat) (pattern : list nat) (j : nat) :
  FieldOffset (w :: pattern) (S j) = (w + FieldOffset pattern j)%nat.
Proof. reflexivity. Qed.

(** The search result lists, in ascending order, exactly the indices of
    the sub-fields that hold a set bit. *)
Lemma NonemptyIndices_filter (e : BinaryDataEngine.t) (pattern : list nat) :
  forall index start,
  NonemptyIndices e pattern index start
  = map (fun j => index + j)%nat
      (filter (NonemptyAt e pattern start) (seq 0 (List.length pattern))).
Proof.
  induction pattern as [|w pattern IH]; intros index start; [reflexivity |].
  cbn [NonemptyIndices List.length seq filter].
  rewrite <- (seq_shift (List.length pattern) 0), filter_map_swap.
  assert (Hhead : NonemptyAt e (w :: pattern) start 0 = SubFieldNonempty e start w).
  { unfold NonemptyAt, FieldOffset. cbn [firstn list_sum fold_right nth].
    now rewrite Nat.add_0_r. }
  assert (Htail : filter (fun j => NonemptyAt e (w :: pattern) start (S j))
                    (seq 0 (List.length pattern))
                  = filter (NonemptyAt e pattern (start + w))
                      (seq 0 (List.length pattern))).
  { apply filter_ext. intros j. unfold NonemptyAt.
    rewrite FieldOffset_cons. cbn [nth]. f_equal. lia. }
  rewrite Hhead, Htail, (IH (S index) (start + w)%nat).
  destruct (SubFieldNonempty e start w); cbn [map]; rewrite map_map.
  - rewrite Nat.add_0_r. f_equal. apply map_ext. intros j. lia.
  - apply map_ext. intros j. lia.
Qed.

Lemma NonemptyIndices_length (e : BinaryDataEngine.t) (pattern : list nat) :
  List.length (NonemptyIndices e pattern 0 0) = NonemptyCount e pattern.
Proof. now rewrite NonemptyIndices_filter, length_map. Qed.

(** The search finds nothing exactly when the schema does not fit the
    buffer or fewer than [k + 1] sub-fields are non-empty. *)
Lemma GetNonemptyFieldIndex_None (k : nat) (bit_pattern : list nat) (m : nat)
      (s : BinaryStructuredDataEngine.t) :
  GetNonemptyFieldIndex k bit_pattern m s = None <->
  list_sum (firstn m bit_pattern) <> Length (BinaryStructuredDataEngine.data s) \/
  (NonemptyCount (BinaryStructuredDataEngine.data s) (firstn m bit_pattern) <= k)%nat.
Proof.
  unfold GetNonemptyFieldIndex.
  destruct (Nat.eqb_spec (list_sum (firstn m bit_pattern))
                         (Length (BinaryStructuredDataEngine.data s))) as [Heq | Hne].
  - rewrite nth_error_None, NonemptyIndices_length. tauto.
  - tauto.
Qed.

End Structured.



(** C2, for the sixteen-byte header: the ten widths sum to 128, eight
    times the byte length; the first non-empty sub-field is number 2 when
    bits are addressed in independent mode and number 3 in dependent
    mode, the second is number 6 in both; and a query returns nothing
    exactly when fewer than [k + 1] sub-fields hold a set bit. This holds
    for either byte order of the memory image. *)
Theorem S2_nonempty_field_index
        (mode : BinaryDataEngine.DATA_HANDLING_MODE)
        (order : BinaryDataEngine.DATA_ENDIAN_TYPE) (k : nat) :
  let buffer := snd (Scenario.buffer1 mode order) in
  let engine := BinaryStructuredDataEngine.data buffer in
  let search k := BinaryStructuredDataEngine.GetNonemptyFieldIndex
                    k Scenario.bit_pattern 10 buffer in
  BinaryDataEngine.Size engine = 16%nat /\
  List.length Scenario.bit_pattern = 10%nat /\
  list_sum Scenario.bit_pattern = (8 * BinaryDataEngine.Size engine)%nat /\
  search 0%nat = Some (match mode with
                       | BinaryDataEngine.DATA_MODE_INDEPENDENT => 2%nat
                       | BinaryDataEngine.DATA_MODE_DEPENDENT => 3%nat
                       end) /\
  search 1%nat = Some 6%nat /\
  (search k = None <->
   (BinaryStructuredDataEngine.NonemptyCount engine Scenario.bit_pattern <= k)%nat).
Proof.
  intros buffer engine search.
  split; [destruct mode, order; reflexivity |].
  split; [reflexivity |].
  split; [destruct mode, order; reflexivity |].
  split; [destruct mode, order; reflexivity |].
  split; [destruct mode, order; reflexivity |].
  unfold search. rewrite GetNonemptyFieldIndex_None.
  change (firstn 10 Scenario.bit_pattern) with Scenario.bit_pattern.
  assert (Hfit : list_sum Scenario.bit_pattern
                 = BinaryDataEngine.Length (BinaryStructuredDataEngine.data buffer))
    by (destruct mode, order; reflexivity).
  fold engine. tauto.
Qed.

(** The header in network byte order has four non-empty sub-fields, so
    the queries from the fifth on find nothing. *)
Lemma S2_four_nonempty (mode : BinaryDataEngine.DATA_HANDLING_MODE) :
  let buffer := snd (Scenario.buffer1 mode BinaryDataEngine.DATA_BIG_ENDIAN) in
  BinaryStructuredDataEngine.NonemptyCount
    (BinaryStructuredDataEngine.data buffer) Scenario.bit_pattern = 4%nat /\
  map (fun k => BinaryStructuredDataEngine.GetNonemptyFieldIndex
                  k Scenario.bit_pattern 10 buffer) (seq 0 10)
  = [Some (match mode with
           | BinaryDataEngine.DATA_MODE_INDEPENDENT => 2%nat
           | BinaryDataEngine.DATA_MODE_DEPENDENT => 3%nat
           end); Some 6%nat; Some 7%nat; Some 8%nat;
     None; None; None; None; None; None].
Proof. destruct mode; split; reflexivity. Qed.

(** C2, as stated, fails: the widths sum to 128 bits, not to eight times
    twenty bytes, so on a buffer of twenty bytes the search finds
    nothing; and with bits addressed in dependent mode sub-field 2 is the
    zero upper nibble of [0x0C], the first non-empty one being number 3. *)
Lemma S2_not_twenty_bytes_nor_mode_free :
  list_sum Scenario.bit_pattern <> (8 * 20)%nat /\
  ~ (exists s, BinaryDataEngine.Size (BinaryStructuredDataEngine.data s) = 20%nat /\
               BinaryStructuredDataEngine.GetNonemptyFieldIndex
                 0 Scenario.bit_pattern 10 s = Some 2%nat) /\
  BinaryStructuredDataEngine.GetNonemptyFieldIndex 0 Scenario.bit_pattern 10
    (snd (Scenario.buffer1 BinaryDataEngine.DATA_MODE_DEPENDENT
            BinaryDataEngine.DATA_BIG_ENDIAN)) = Some 3%nat.
Proof.
  split; [discriminate |].
  split; [| reflexivity].
  intros (s & Hsize & Hfound).
  unfold BinaryStructuredDataEngine.GetNonemptyFieldIndex, BinaryDataEngine.Length in Hfound.
  rewrite Hsize in Hfound. discriminate Hfound.
Qed.

(** ** [text::split] *)

Section Split.

Import textutil.

Variable delimiter : ascii.

Lemma contains_append (s1 s2 : string) :
  contains delimiter (s1 ++ s2) = contains delimiter s1 || contains delimiter s2.
Proof.
  induction s1 as [|c s1 IH]; simpl; [reflexivity |].
  now rewrite IH, orb_assoc.
Qed.

Lemma contains_occurrences (s : string) :
  contains delimiter s = false -> occurrences delimiter s = O.
Proof.
  induction s as [|c s IH]; simpl; [reflexivity |].
  destruct (Ascii.eqb c delimiter); simpl; [discriminate | exact IH].
Qed.

Lemma contains_ends_with (s : string) :
  contains delimiter s = false -> ends_with delimiter s = false.
Proof.
  induction s as [|c s IH]; [reflexivity |].
  cbn [contains ends_with]. intros H. apply orb_false_elim in H as [Hc Hs].
  destruct s; [exact Hc | exact (IH Hs)].
Qed.

Lemma occurrences_append (s1 s2 : string) :
  occurrences delimiter (s1 ++ s2)
  = (occurrences delimiter s1 + occurrences delimiter s2)%nat.
Proof.
  induction s1 as [|c s1 IH]; simpl; [reflexivity |]. rewrite IH. lia.
Qed.

Lemma ends_with_after_delimiter (item rest : string) :
  ends_with delimiter (item ++ String delimiter rest)
  = match rest with
    | EmptyString => true
    | String _ _ => ends_with delimiter rest
    end.
Proof.
  induction item as [|c item IH].
  - cbn [append ends_with]. destruct rest; [apply Ascii.eqb_refl | reflexivity].
  - cbn [append ends_with].
    destruct (item ++ String delimiter rest)%string eqn:Happ; [| exact IH].
    destruct item; discriminate Happ.
Qed.

(** What one [getline] extracts. *)
Lemma read_item_parts (unread item rest : string) :
  read_item unread delimiter = (item, rest) ->
  contains delimiter item = false /\
  (unread = (item ++ String delimiter rest)%string \/
   unread = item /\ rest = EmptyString).
Proof.
  revert item rest. induction unread as [|c unread IH]; intros item rest.
  - cbn [read_item]. intros H; injection H as <- <-. split; [reflexivity | now right].
  - cbn [read_item]. destruct (Ascii.eqb c delimiter) eqn:Hc.
    + intros H; injection H as <- <-. apply Ascii.eqb_eq in Hc. subst c.
      split; [reflexivity | now left].
    + destruct (read_item unread delimiter) as [item' rest'] eqn:Hread.
      intros H; injection H as <- <-.
      destruct (IH item' rest' eq_refl) as [Hno [Hfound | [Hall Hrest]]].
      * split; [cbn [contains]; now rewrite Hc |].
        left. cbn [append]. now rewrite <- Hfound.
      * split; [cbn [contains]; now rewrite Hc |].
        right. split; [now rewrite <- Hall | exact Hrest].
Qed.

(** The loop ends within its bound, keeps what the output already held
    and appends the items of the unread text. *)
Lemma split_loop_splits (n : nat) :
  forall unread fuel result,
  (String.length unread <= n)%nat -> (String.length unread < fuel)%nat ->
  exists items,
    split_loop fuel unread delimiter result = Some (result ++ items) /\
    splits delimiter unread items.
Proof.
  induction n as [|n IH]; intros unread fuel result Hn Hfuel.
  - destruct unread; [| simpl in Hn; lia].
    destruct fuel as [|fuel]; [lia |].
    exists []. split; [cbn; now rewrite app_nil_r | constructor].
  - destruct fuel as [|fuel]; [lia |].
    destruct unread as [|c unread].
    { exists []. split; [cbn; now rewrite app_nil_r | constructor]. }
    cbn [split_loop getline].
    destruct (read_item (String c unread) delimiter) as [item rest] eqn:Hread.
    destruct (read_item_parts _ _ _ Hread) as [Hno [Hfound | [Hall Hrest]]].
    + assert (Hlen : String.length (String c unread)
                     = (String.length item + S (String.length rest))%nat)
        by (rewrite Hfound, length_append; reflexivity).
      destruct (IH rest fuel (result ++ [item])) as (items & Hrun & Hsplits);
        [lia | lia |].
      exists (item :: items). split.
      * rewrite Hrun. f_equal. now rewrite <- app_assoc.
      * rewrite Hfound. now constructor.
    + subst rest. destruct fuel as [|fuel]; [simpl in Hfuel; lia |].
      exists [item]. split; [reflexivity |].
      rewrite Hall. constructor; [| exact Hno].
      rewrite <- Hall. discriminate.
Qed.

(** The output container only grows at its end. *)
Lemma split_loop_prefix (fuel : nat) :
  forall unread result,
  split_loop fuel unread delimiter result
  = option_map (app result) (split_loop fuel unread delimiter []).
Proof.
  induction fuel as [|fuel IH]; intros unread result; [reflexivity |].
  cbn [split_loop]. destruct (getline unread delimiter) as [[item rest] |].
  - rewrite (IH rest (result ++ [item])), (IH rest ([] ++ [item])).
    destruct (split_loop fuel rest delimiter []) as [items |]; [| reflexivity].
    cbn [option_map app]. now rewrite <- app_assoc.
  - cbn [option_map]. now rewrite app_nil_r.
Qed.

Lemma split_splits (str : string) (result : list string) :
  exists items,
    split str delimiter result = Some (result ++ items) /\
    splits delimiter str items.
Proof. apply (split_loop_splits (String.length str)); lia. Qed.

Lemma splits_nil_inv (s : string) : splits delimiter s [] -> s = EmptyString.
Proof. intros H. inversion H. reflexivity. Qed.

Lemma splits_cons_inv (s : string) (item : string) (items : list string) :
  splits delimiter s (item :: items) -> s <> EmptyString.
Proof.
  intros H. inversion H as [| i Hne Hno | i rest is_ Hno Hrest]; subst.
  - assumption.
  - destruct item; discriminate.
Qed.

Lemma splits_functional (s : string) (items : list string) :
  splits delimiter s items ->
  Forall (fun item => contains delimiter item = false) items /\
  s = (join delimiter items
       ++ (if ends_with delimiter s then String delimiter EmptyString
           else EmptyString))%string /\
  List.length items
  = (occurrences delimiter s
     + match s with
       | EmptyString => 0
       | String _ _ => if ends_with delimiter s then 0 else 1
       end)%nat.
Proof.
  induction 1 as [| item Hne Hno | item rest items Hno Hsplits [IHno [IHjoin IHcount]]].
  - repeat split. constructor.
  - rewrite (contains_ends_with item Hno), (contains_occurrences item Hno).
    repeat split.
    + constructor; [exact Hno | constructor].
    + cbn [join]. now rewrite append_empty_r.
    + destruct item; [contradiction | reflexivity].
  - rewrite ends_with_after_delimiter, occurrences_append.
    rewrite (contains_occurrences item Hno). cbn [occurrences].
    rewrite Ascii.eqb_refl.
    split; [constructor; assumption |].
    destruct items as [|item' items].
    + apply splits_nil_inv in Hsplits. subst rest. cbn [join List.length].
      split; [reflexivity |].
      cbn [occurrences]. destruct item; reflexivity.
    + pose proof (splits_cons_inv _ _ _ Hsplits) as Hrest.
      destruct rest as [|c rest]; [contradiction |].
      split.
      * change (join delimiter (item :: item' :: items))
          with (item ++ String delimiter (join delimiter (item' :: items)))%string.
        rewrite append_assoc. cbn [append]. f_equal. f_equal. exact IHjoin.
      * cbn [List.length] in *.
        destruct (item ++ String delimiter (String c rest))%string eqn:Happ;
          [destruct item; discriminate Happ |].
        lia.
Qed.

End Split.

(** X1: [split] returns: the loop ends within the length of the text,
    what the output already held stays in front, and the items appended
    do not depend on it. *)
Theorem split_appends (str : string) (delimiter : ascii) (result : list string) :
  exists items,
    textutil.split str delimiter result = Some (result ++ items) /\
    textutil.split str delimiter [] = Some items.
Proof.
  destruct (split_splits delimiter str []) as (items & Hrun & _).
  exists items. split; [| exact Hrun].
  unfold textutil.split in *. rewrite split_loop_prefix, Hrun. reflexivity.
Qed.

(** X2: no item [split] produces contains the delimiter. *)
Theorem split_items_without_delimiter
        (str : string) (delimiter : ascii) (result : list string) :
  exists items,
    textutil.split str delimiter result = Some (result ++ items) /\
    Forall (fun item => textutil.contains delimiter item = false) items.
Proof.
  destruct (split_splits delimiter str result) as (items & Hrun & Hsplits).
  exists items. split; [exact Hrun |].
  exact (proj1 (splits_functional delimiter str items Hsplits)).
Qed.

(** X3: writing the items of [split] one after the other with the
    delimiter between them gives the text back, short of one delimiter at
    its very end; a text that does not end in the delimiter comes back
    whole. *)
Theorem split_join_round_trip
        (str : string) (delimiter : ascii) (result : list string) :
  exists items,
    textutil.split str delimiter result = Some (result ++ items) /\
    str = (textutil.join delimiter items
           ++ (if textutil.ends_with delimiter str
               then String delimiter EmptyString else EmptyString))%string /\
    (textutil.ends_with delimiter str = false ->
     textutil.join delimiter items = str).
Proof.
  destruct (split_splits delimiter str result) as (items & Hrun & Hsplits).
  exists items. split; [exact Hrun |].
  destruct (splits_functional delimiter str items Hsplits) as (_ & Hjoin & _).
  split; [exact Hjoin |].
  intros Hend. rewrite Hend, append_empty_r in Hjoin. now symmetry.
Qed.

(** X4: [split] yields one item per delimiter of the text, and one more
    when the text is not empty and does not end in the delimiter; so an
    empty text yields nothing and a closing delimiter opens no empty
    last item. *)
Theorem split_item_count
        (str : string) (delimiter : ascii) (result : list string) :
  exists items,
    textutil.split str delimiter result = Some (result ++ items) /\
    List.length items
    = (textutil.occurrences delimiter str
       + match str with
         | EmptyString => 0
         | String _ _ => if textutil.ends_with delimiter str then 0 else 1
         end)%nat /\
    (items = [] <-> str = EmptyString).
Proof.
  destruct (split_splits delimiter str result) as (items & Hrun & Hsplits).
  exists items. split; [exact Hrun |].
  destruct (splits_functional delimiter str items Hsplits) as (_ & _ & Hcount).
  split; [exact Hcount |].
  split.
  - intros ->. exact (splits_nil_inv delimiter str Hsplits).
  - intros ->. inversion Hsplits as [| item Hne | item rest is_ Hno Hrest Heq].
    + reflexivity.
    + contradiction.
    + destruct item; discriminate Heq.
Qed.

Example split_samples :
  textutil.split "a,b," "," [] = Some ["a"; "b"]%string /\
  textutil.split ",a" "," [] = Some [""; "a"]%string /\
  textutil.split "a,,b" "," ["x"%string] = Some ["x"; "a"; ""; "b"]%string /\
  textutil.split "" "," [] = Some [] /\
  textutil.split "," "," [] = Some [""%string].
Proof. repeat split. Qed.

(** ** The character tests *)

Lemma charToUChar_value (symbol : Z) :
  in_range signed_char symbol ->
  textutil.charToUChar symbol = if symbol <? 0 then symbol + 256 else symbol.
Proof.
  unfold in_range, textutil.charToUChar, convert.
  change (numeric_limits_min signed_char) with (-128).
  change (numeric_limits_max signed_char) with 127.
  cbn [is_signed uint8_t andb]. change (2 ^ bits uint8_t) with 256.
  intros Hc. destruct (Z.ltb_spec symbol 0).
  - symmetry. apply (Z.mod_unique symbol 256 (-1)); lia.
  - apply Z.mod_small. lia.
Qed.

(** X5: [isPrintable] and [isNumber] answer the same on a [char] and on
    the unsigned byte [charToUChar] makes of it, so a character with the
    high bit set is neither printable nor a number whether plain [char]
    is signed or not. *)
Theorem char_tests_ignore_signedness (symbol : Z) :
  in_range signed_char symbol ->
  textutil.isPrintable symbol = textutil.isPrintable (textutil.charToUChar symbol) /\
  textutil.isNumber symbol = textutil.isNumber (textutil.charToUChar symbol) /\
  (128 <= textutil.charToUChar symbol ->
   textutil.isPrintable symbol = false /\ textutil.isNumber symbol = false).
Proof.
  intros Hc. rewrite (charToUChar_value symbol Hc).
  unfold in_range in Hc.
  change (numeric_limits_min signed_char) with (-128) in Hc.
  change (numeric_limits_max signed_char) with 127 in Hc.
  unfold textutil.isPrintable, textutil.isNumber.
  destruct (Z.ltb_spec symbol 0) as [Hneg | Hpos].
  - repeat split;
      repeat match goal with
             | |- context [?a <=? ?b] => destruct (Z.leb_spec a b)
             | |- context [?a <? ?b] => destruct (Z.ltb_spec a b)
             end; try reflexivity; lia.
  - repeat split; intros; lia.
Qed.

Lemma char_tests_ignore_signedness_witness :
  textutil.isPrintable (-23) = textutil.isPrintable (textutil.charToUChar (-23)) /\
  textutil.charToUChar (-23) = 233 /\
  textutil.isPrintable (-23) = false.
Proof.
  assert (H : in_range signed_char (-23)) by (split; discriminate).
  split; [exact (proj1 (char_tests_ignore_signedness (-23) H)) |].
  split; reflexivity.
Defined.

(** X6: [charToUChar] maps the 256 values of [char] one to one onto
    [0..255]: it keeps a non-negative character, and converting its
    result back to [char] returns the character. *)
Theorem charToUChar_round_trip (symbol : Z) :
  in_range signed_char symbol ->
  0 <= textutil.charToUChar symbol <= 255 /\
  (0 <= symbol -> textutil.charToUChar symbol = symbol) /\
  convert signed_char (textutil.charToUChar symbol) = symbol.
Proof.
  intros Hc. rewrite (charToUChar_value symbol Hc).
  unfold in_range in Hc.
  change (numeric_limits_min signed_char) with (-128) in Hc.
  change (numeric_limits_max signed_char) with 127 in Hc.
  unfold convert. change (is_signed signed_char) with true. cbn [andb].
  change (2 ^ bits signed_char) with 256.
  change (2 ^ (bits signed_char - 1)) with 128.
  destruct (Z.ltb_spec symbol 0) as [Hneg | Hpos].
  - split; [lia |]. split; [lia |].
    rewrite Z.mod_small by lia.
    destruct (Z.leb_spec 128 (symbol + 256)); lia.
  - split; [lia |]. split; [reflexivity |].
    rewrite Z.mod_small by lia.
    destruct (Z.leb_spec 128 symbol); lia.
Qed.

Lemma charToUChar_round_trip_witness :
  textutil.charToUChar (-1) = 255 /\
  convert signed_char (textutil.charToUChar (-1)) = -1.
Proof.
  assert (H : in_range signed_char (-1)) by (split; discriminate).
  split; [reflexivity |].
  exact (proj2 (proj2 (charToUChar_round_trip (-1) H))).
Defined.

(** X7: every number character is a printable character. *)
Theorem isNumber_isPrintable (symbol : Z) :
  textutil.isNumber symbol = true -> textutil.isPrintable symbol = true.
Proof.
  unfold textutil.isNumber, textutil.isPrintable. intros H.
  apply andb_prop in H as [Hlo Hhi]. apply Z.leb_le in Hlo, Hhi.
  apply andb_true_intro. split; [apply Z.leb_le | apply Z.ltb_lt]; lia.
Qed.

Lemma isNumber_isPrintable_witness :
  textutil.isNumber 0x37 = true /\ textutil.isPrintable 0x37 = true.
Proof.
  split; [reflexivity |].
  exact (isNumber_isPrintable 0x37 eq_refl).
Defined.

(** ** More on [getHexValue] and [getHexString] *)

Section HexString.

Variable T : IntType.
Variable width : Z.
Variable upper : bool.

Lemma getHexString_loop_result (data : list Z) :
  forall result,
  text.getHexString_loop T data width upper result
  = (result ++ text.getHexString_loop T data width upper EmptyString)%string.
Proof.
  induction data as [|d data IH]; intros result.
  - cbn. now rewrite append_empty_r.
  - cbn [text.getHexString_loop]. rewrite IH.
    rewrite (IH (EmptyString ++ _)%string). cbn [append].
    apply append_assoc.
Qed.

Lemma getHexString_loop_app (data1 data2 : list Z) :
  forall result,
  text.getHexString_loop T (data1 ++ data2) width upper result
  = text.getHexString_loop T data2 width upper
      (text.getHexString_loop T data1 width upper result).
Proof.
  induction data1 as [|d data1 IH]; intros result; [reflexivity |].
  cbn [app text.getHexString_loop]. apply IH.
Qed.

End HexString.

(** X8: the hex string of two sequences put end to end is the hex string
    of the first followed by the hex string of the second, for every
    element type, width and case. *)
Theorem getHexString_concatenates
        (T : IntType) (data1 data2 : list Z) (width : Z) (upper : bool) :
  text.getHexString T (data1 ++ data2) (List.length (data1 ++ data2)) width upper
  = (text.getHexString T data1 (List.length data1) width upper
     ++ text.getHexString T data2 (List.length data2) width upper)%string.
Proof.
  unfold text.getHexString. rewrite !firstn_all.
  rewrite getHexString_loop_app. apply getHexString_loop_result.
Qed.

Lemma getHexValue_byte_pair (upper : bool) (b : byte) :
  text.getHexValue std_byte (BinaryDataEngine.byte_val b)
    (convert uint16_t text.default_width * sizeof std_byte) upper
  = hex.pair_of upper (BinaryDataEngine.byte_val b).
Proof. destruct upper, b; vm_compute; reflexivity. Qed.

Lemma decode_pair (upper : bool) (b : byte) (rest : string) :
  hexdump.decode (hex.pair_of upper (BinaryDataEngine.byte_val b) ++ rest)
  = b :: hexdump.decode rest.
Proof.
  unfold hex.pair_of. cbn [append hexdump.decode]. f_equal.
  destruct upper, b; vm_compute; reflexivity.
Qed.

Lemma decode_dump (upper : bool) (bytes : list byte) :
  hexdump.decode
    (text.getHexString std_byte (map BinaryDataEngine.byte_val bytes)
       (List.length bytes) text.default_width upper)
  = bytes.
Proof.
  unfold text.getHexString.
  rewrite <- (length_map BinaryDataEngine.byte_val bytes), firstn_all.
  induction bytes as [|b bytes IH]; [reflexivity |].
  cbn [map text.getHexString_loop append].
  rewrite getHexString_loop_result, getHexValue_byte_pair, decode_pair.
  now rewrite IH.
Qed.

(** X9: a hex dump of bytes with the default width, in either case, can
    be read back pair by pair into the same bytes; two byte sequences
    with the same dump are the same sequence. *)
Theorem hex_dump_round_trip (upper : bool) (bytes : list byte) :
  let dump bs := text.getHexString std_byte (map BinaryDataEngine.byte_val bs)
                   (List.length bs) text.default_width upper in
  hexdump.decode (dump bytes) = bytes /\
  (forall bytes', dump bytes = dump bytes' -> bytes = bytes').
Proof.
  intros dump. split; [apply decode_dump |].
  intros bytes' Hdump.
  rewrite <- (decode_dump upper bytes), <- (decode_dump upper bytes').
  unfold dump in Hdump. now rewrite Hdump.
Qed.

Lemma getHexValue_fits (T : IntType) (v w : Z) (upper : bool) :
  1 <= w < 65536 -> 0 <= v < 16 ^ w -> v < 16 ^ 16 ->
  Z.of_nat (String.length (text.getHexValue T v w upper)) = w.
Proof.
  intros Hw Hv Hv64. unfold text.getHexValue.
  assert (Hcw : convert uint16_t w = w).
  { unfold convert. change (is_signed uint16_t) with false. cbn [andb].
    change (2 ^ bits uint16_t) with 65536. apply Z.mod_small. lia. }
  assert (Hcv : convert size_t v = v).
  { unfold convert. change (is_signed size_t) with false. cbn [andb].
    change (2 ^ bits size_t) with (16 ^ 16). apply Z.mod_small. lia. }
  rewrite Hcw, Hcv, put_hex_length by lia.
  assert (String.length (text.hex_digits 16 upper v) <= S (Z.to_nat w - 1))%nat.
  { apply hex_digits_short.
    replace (Z.of_nat (S (Z.to_nat w - 1))) with w by lia. exact Hv. }
  lia.
Qed.

(** X10: with the default width every element of an element type of
    [sizeof] 1 to 8 bytes takes exactly [2 * sizeof] characters, provided
    its value is not negative; the hex string of [n] such elements has
    [2 * sizeof * n] characters. *)
Theorem getHexString_length_by_element_size
        (T : IntType) (data : list Z) (upper : bool) :
  1 <= sizeof T <= 8 ->
  Forall (fun v => 0 <= v < 2 ^ bits T) data ->
  Z.of_nat (String.length
              (text.getHexString T data (List.length data) text.default_width upper))
  = 2 * sizeof T * Z.of_nat (List.length data).
Proof.
  intros HT Hdata. unfold text.getHexString. rewrite firstn_all.
  assert (Hpow : 16 ^ (2 * sizeof T) = 2 ^ bits T).
  { unfold bits. change 16 with (2 ^ 4). rewrite <- Z.pow_mul_r by lia.
    f_equal. lia. }
  assert (Hle : 2 ^ bits T <= 16 ^ 16).
  { change (16 ^ 16) with (2 ^ 64). apply Z.pow_le_mono_r; unfold bits; lia. }
  induction Hdata as [|v data Hv Hdata IH];
    [cbn [text.getHexString_loop String.length List.length]; lia |].
  cbn [text.getHexString_loop append List.length].
  rewrite getHexString_loop_result, length_append, Nat2Z.inj_add, IH.
  change (convert uint16_t text.default_width) with 2.
  rewrite (getHexValue_fits T v (2 * sizeof T) upper) by lia.
  lia.
Qed.

Lemma getHexString_length_by_element_size_witness :
  String.length (text.getHexString uint16_t [0x00FF; 0xAAAA; 0] 3
                   text.default_width true) = 12%nat /\
  text.getHexString uint16_t [0x00FF; 0xAAAA; 0] 3 text.default_width true
  = "00FFAAAA0000"%string.
Proof.
  split; [| reflexivity].
  apply Nat2Z.inj.
  apply (getHexString_length_by_element_size uint16_t [0x00FF; 0xAAAA; 0] true).
  - split; discriminate.
  - repeat constructor; discriminate.
Defined.

Lemma hex_digit_case (upper : bool) (d : Z) :
  0 <= d < 16 ->
  (if upper then hex.is_upper_digit (text.hex_digit upper d)
   else hexdump.is_lower_digit (text.hex_digit upper d)) = true.
Proof.
  intros Hd. each_digit d H; destruct upper; reflexivity.
Qed.

Lemma all_digits_append (upper : bool) (s1 s2 : string) :
  hexdump.all_digits upper (s1 ++ s2)
  = hexdump.all_digits upper s1 && hexdump.all_digits upper s2.
Proof.
  induction s1 as [|c s1 IH]; cbn [append hexdump.all_digits]; [reflexivity |].
  now rewrite IH, andb_assoc.
Qed.

Lemma hex_digits_all_digits (upper : bool) (fuel : nat) :
  forall n, 0 <= n -> hexdump.all_digits upper (text.hex_digits fuel upper n) = true.
Proof.
  induction fuel as [|fuel IH]; intros n Hn; [reflexivity |].
  cbn [text.hex_digits]. destruct (Z.ltb_spec n 16) as [Hlt | Hge].
  - cbn [hexdump.all_digits]. pose proof (hex_digit_case upper n ltac:(lia)) as Hd.
    destruct upper; now rewrite Hd.
  - rewrite all_digits_append, IH by (apply Z.div_pos; lia).
    cbn [hexdump.all_digits andb].
    pose proof (hex_digit_case upper (n mod 16)
                  ltac:(apply Z.mod_pos_bound; lia)) as Hd.
    destruct upper; now rewrite Hd.
Qed.

Lemma fill_zero_all_digits (upper : bool) (n : nat) :
  hexdump.all_digits upper (text.fill "0" n) = true.
Proof.
  induction n as [|n IH]; [reflexivity |].
  cbn [text.fill hexdump.all_digits]. rewrite IH. now destruct upper.
Qed.

(** X11: whatever the value, width and type, [getHexValue] writes
    hexadecimal digits only, all of the case asked for: no sign, no
    prefix, no blank. *)
Theorem getHexValue_digits_only (T : IntType) (data width : Z) (upper : bool) :
  hexdump.all_digits upper (text.getHexValue T data width upper) = true.
Proof.
  unfold text.getHexValue, text.put_hex.
  rewrite all_digits_append, fill_zero_all_digits.
  apply hex_digits_all_digits. apply convert_size_t_range.
Qed.

(** ** More on [GetRandomValue] *)

Lemma pow2_bits_large (T : IntType) : 1 <= sizeof T -> 128 <= 2 ^ (bits T - 1).
Proof.
  intros HT. change 128 with (2 ^ 7).
  apply Z.pow_le_mono_r; unfold bits; lia.
Qed.

(** X12: called with its default bounds, the smallest and the largest
    value of the type, [GetRandomValue] always has a result, and the
    result is neither of the two. *)
Theorem GetRandomValue_default_bounds (T : IntType) (g : Z) :
  1 <= sizeof T ->
  exists v,
    random.GetRandomValue T g (numeric_limits_min T) (numeric_limits_max T) = Some v /\
    numeric_limits_min T < v < numeric_limits_max T.
Proof.
  intros HT.
  destruct (pow2_bits T HT) as [Hpow Hpos].
  pose proof (pow2_bits_large T HT) as Hbig.
  assert (Hgap : numeric_limits_min T + 1 <= numeric_limits_max T + -1)
    by (unfold numeric_limits_min, numeric_limits_max; destruct (is_signed T); lia).
  assert (Hlo : random.offset T (numeric_limits_min T) 1
                = Some (numeric_limits_min T + 1))
    by (apply (offset_inside T HT); unfold in_range; lia).
  assert (Hhi : random.offset T (numeric_limits_max T) (-1)
                = Some (numeric_limits_max T + -1))
    by (apply (offset_inside T HT); unfold in_range; lia).
  unfold random.GetRandomValue. rewrite Hlo, Hhi.
  unfold random.uniform_int_distribution.
  destruct (Z.leb_spec (numeric_limits_min T + 1) (numeric_limits_max T + -1));
    [| lia].
  eexists. split; [reflexivity |].
  pose proof (Z.mod_pos_bound g
                (numeric_limits_max T + -1 - (numeric_limits_min T + 1) + 1)
                ltac:(lia)).
  lia.
Qed.

Lemma GetRandomValue_default_bounds_witness :
  exists v,
    random.GetRandomValue uint32_t 123456789
      (numeric_limits_min uint32_t) (numeric_limits_max uint32_t) = Some v /\
    numeric_limits_min uint32_t < v < numeric_limits_max uint32_t.
Proof.
  apply (GetRandomValue_default_bounds uint32_t 123456789). discriminate.
Defined.

(** X13: for a signed type at least as wide as [int], a lower bound equal
    to the largest value makes [begin + 1] overflow, and an upper bound
    equal to the smallest value makes [end - 1] overflow: neither call
    has a defined result, whatever the other bound. *)
Theorem GetRandomValue_signed_overflow (T : IntType) (g bound : Z) :
  is_signed T = true -> sizeof int_ <= sizeof T ->
  random.GetRandomValue T g (numeric_limits_max T) bound = None /\
  random.GetRandomValue T g bound (numeric_limits_min T) = None.
Proof.
  intros Hs Hwide.
  assert (Hp : random.promoted T = T).
  { unfold random.promoted. destruct (Z.ltb_spec (sizeof T) (sizeof int_)); [lia |].
    reflexivity. }
  assert (Hup : random.offset T (numeric_limits_max T) 1 = None).
  { unfold random.offset, random.in_range_b. rewrite Hp, Hs.
    destruct (Z.leb_spec (numeric_limits_max T + 1) (numeric_limits_max T)); [lia |].
    now rewrite andb_false_r. }
  assert (Hdown : random.offset T (numeric_limits_min T) (-1) = None).
  { unfold random.offset, random.in_range_b. rewrite Hp, Hs.
    destruct (Z.leb_spec (numeric_limits_min T) (numeric_limits_min T + -1)); [lia |].
    reflexivity. }
  unfold random.GetRandomValue. rewrite Hup, Hdown.
  split; [reflexivity |].
  destruct (random.offset T bound 1); reflexivity.
Qed.

Lemma GetRandomValue_signed_overflow_witness :
  random.GetRandomValue int64_t 5 (numeric_limits_max int64_t) 0 = None /\
  random.GetRandomValue int64_t 5 0 (numeric_limits_min int64_t) = None.
Proof.
  apply (GetRandomValue_signed_overflow int64_t 5 0); [reflexivity | discriminate].
Defined.

(** ** The constructors of [Data<Type>] *)

(** X14: a container built over an array with a size within the array
    reports that size and the array's address; reading through [GetAt]
    gives the array's element at every index below the size and nothing
    at or past it, even where the array goes on; the constructor taking
    a [unique_ptr] builds the same container and leaves the pointer it
    was given null. *)
Theorem Data_constructed_reads_array
        {A : Type} (elem_size : Z) (a : Data.array A) (size index : Z) :
  0 < elem_size -> 0 < Data.base a ->
  0 <= size <= Z.of_nat (List.length (Data.elems a)) -> 0 <= index ->
  let d := DataCtor.from_pointer (Some a) size in
  Method.result Data.Size d = size /\
  Method.result Data.Get d = Data.base a /\
  Data.deref elem_size d (Method.result (Data.GetAt elem_size index) d)
  = (if index <? size then nth_error (Data.elems a) (Z.to_nat index) else None) /\
  (index < size ->
   exists x, Data.deref elem_size d (Method.result (Data.GetAt elem_size index) d)
             = Some x) /\
  DataCtor.from_unique_ptr (Some a) size = (d, None).
Proof.
  intros Hsize Hbase Hlen Hindex d.
  assert (Hread :
    Data.deref elem_size d (Method.result (Data.GetAt elem_size index) d)
    = (if index <? size then nth_error (Data.elems a) (Z.to_nat index) else None)).
  { unfold Data.GetAt, Method.result, Method.read, Data.deref. cbn [fst].
    unfold d, DataCtor.from_pointer.
    cbn [Data.length Data.data].
    destruct (Z.ltb_spec index size) as [Hlt | Hge].
    - unfold Data.address_of, Data.get_. cbn [Data.data].
      replace (Data.base a + index * elem_size - Data.base a)
        with (index * elem_size) by lia.
      rewrite Z.mod_mul, Z.div_mul by lia.
      destruct (Z.leb_spec (Data.base a) (Data.base a + index * elem_size)); [| nia].
      reflexivity.
    - unfold Data.nullptr.
      destruct (Z.leb_spec (Data.base a) 0); [lia | reflexivity]. }
  split; [reflexivity |]. split; [reflexivity |]. split; [exact Hread |].
  split; [| reflexivity].
  intros Hlt. rewrite Hread.
  destruct (Z.ltb_spec index size); [| lia].
  destruct (nth_error (Data.elems a) (Z.to_nat index)) as [x |] eqn:Hx;
    [now exists x |].
  apply nth_error_None in Hx. lia.
Qed.

Lemma Data_constructed_reads_array_witness :
  let a := Data.mkArray 4096 ["a"; "b"; "c"; "d"]%char in
  let d := DataCtor.from_pointer (Some a) 2 in
  Data.deref 1 d (Method.result (Data.GetAt 1 1) d) = Some "b"%char /\
  Data.deref 1 d (Method.result (Data.GetAt 1 2) d) = None.
Proof.
  intros a d.
  assert (Hlen : 0 <= 2 <= Z.of_nat (List.length (Data.elems a)))
    by (split; discriminate).
  split.
  - exact (proj1 (proj2 (proj2 (Data_constructed_reads_array 1 a 2 1
             ltac:(lia) ltac:(reflexivity) Hlen ltac:(lia))))).
  - exact (proj1 (proj2 (proj2 (Data_constructed_reads_array 1 a 2 2
             ltac:(lia) ltac:(reflexivity) Hlen ltac:(lia))))).
Defined.

(** ** More on [GlobalInfo::GetCallback] *)

Section Lookup.

Variable FRAMEWORK_MODULE_TYPES_SIZE : Z.
Variable GetModuleCallbacksSize : Z -> Z.
Variables Functor Type_ : Type.
Variable dynamic_cast : Functor -> option Type_.

Let lookup := GlobalInfo.GetCallback FRAMEWORK_MODULE_TYPES_SIZE
                GetModuleCallbacksSize dynamic_cast.

(** The lookup, branch by branch. *)
Lemma GetCallback_cases (module callback : Z) (gi : GlobalInfo.t Functor) :
  lookup module callback gi =
  if FRAMEWORK_MODULE_TYPES_SIZE <=? module then
    (None, GlobalInfo.mk (GlobalInfo.callbacks gi)
             (GlobalInfo.logger gi
              ++ [GlobalInfo.mkLine
                    "GlobalInfo.GetCallback: Incorrect input module type - " module]))
  else
    match nth (Z.to_nat module) (GlobalInfo.callbacks gi) None with
    | None => (None, gi)
    | Some tbl =>
        if callback <? GetModuleCallbacksSize module then
          (GlobalInfo.cast_slot Functor Type_ dynamic_cast tbl callback, gi)
        else
          (None, GlobalInfo.mk (GlobalInfo.callbacks gi)
                   (GlobalInfo.logger gi
                    ++ [GlobalInfo.mkLine
                          "GlobalInfo.GetCallback: Incorrect input callback type - "
                          callback]))
    end.
Proof.
  unfold lookup, GlobalInfo.GetCallback.
  destruct (FRAMEWORK_MODULE_TYPES_SIZE <=? module); [reflexivity |].
  unfold Method.bind, GlobalInfo.module_table, Method.read.
  destruct (nth (Z.to_nat module) (GlobalInfo.callbacks gi) None); [| reflexivity].
  destruct (callback <? GetModuleCallbacksSize module); reflexivity.
Qed.

End Lookup.

(** X15: [GetCallback] returns a functor exactly when the module is in
    range, a table is installed for it, the callback is below the
    module's table size, the slot holds a functor and the cast to the
    type asked for succeeds; the functor returned is the result of that
    cast. *)
Theorem GetCallback_returns_installed_functor
        (FRAMEWORK_MODULE_TYPES_SIZE : Z) (GetModuleCallbacksSize : Z -> Z)
        {Functor Type_ : Type} (dynamic_cast : Functor -> option Type_)
        (module callback : Z) (gi : GlobalInfo.t Functor) (found : Type_) :
  Method.result (GlobalInfo.GetCallback FRAMEWORK_MODULE_TYPES_SIZE
                   GetModuleCallbacksSize dynamic_cast module callback) gi
  = Some found
  <->
  module < FRAMEWORK_MODULE_TYPES_SIZE /\
  callback < GetModuleCallbacksSize module /\
  exists tbl functor,
    nth (Z.to_nat module) (GlobalInfo.callbacks gi) None = Some tbl /\
    nth (Z.to_nat callback) tbl None = Some functor /\
    dynamic_cast functor = Some found.
Proof.
  unfold Method.result. rewrite GetCallback_cases.
  destruct (Z.leb_spec FRAMEWORK_MODULE_TYPES_SIZE module) as [Hmod | Hmod].
  - cbn [fst]. split; [discriminate | intros [H _]; lia].
  - destruct (nth (Z.to_nat module) (GlobalInfo.callbacks gi) None) as [tbl |].
    + destruct (Z.ltb_spec callback (GetModuleCallbacksSize module)) as [Hcb | Hcb];
        cbn [fst].
      * unfold GlobalInfo.cast_slot. split.
        -- destruct (nth (Z.to_nat callback) tbl None) as [functor |] eqn:Hslot;
             [| discriminate].
           intros Hcast. split; [exact Hmod |]. split; [exact Hcb |].
           exists tbl, functor. repeat split; assumption.
        -- intros (_ & _ & tbl' & functor & Htbl & Hslot & Hcast).
           injection Htbl as <-. now rewrite Hslot.
      * split; [discriminate | intros (_ & H & _); lia].
    + cbn [fst]. split; [discriminate |].
      intros (_ & _ & tbl & functor & Htbl & _). discriminate Htbl.
Qed.

(** X16: [GetCallback] leaves the tables as they are on every path, also
    when it finds the functor; it hands the logger at most one line, and
    one exactly when the module is out of range or, a table being
    installed, the callback is out of range. A module without a table is
    answered with [nullptr] in silence. *)
Theorem GetCallback_keeps_tables_and_logs_range_errors
        (FRAMEWORK_MODULE_TYPES_SIZE : Z) (GetModuleCallbacksSize : Z -> Z)
        {Functor Type_ : Type} (dynamic_cast : Functor -> option Type_)
        (module callback : Z) (gi : GlobalInfo.t Functor) :
  let after := Method.after (GlobalInfo.GetCallback FRAMEWORK_MODULE_TYPES_SIZE
                               GetModuleCallbacksSize dynamic_cast module callback) gi in
  GlobalInfo.callbacks after = GlobalInfo.callbacks gi /\
  exists lines,
    GlobalInfo.logger after = GlobalInfo.logger gi ++ lines /\
    (List.length lines <= 1)%nat /\
    (lines <> [] <->
     FRAMEWORK_MODULE_TYPES_SIZE <= module \/
     (nth (Z.to_nat module) (GlobalInfo.callbacks gi) None <> None /\
      GetModuleCallbacksSize module <= callback)).
Proof.
  intros after. unfold after, Method.after. rewrite GetCallback_cases.
  destruct (Z.leb_spec FRAMEWORK_MODULE_TYPES_SIZE module) as [Hmod | Hmod].
  - cbn [snd GlobalInfo.callbacks GlobalInfo.logger]. split; [reflexivity |].
    eexists. split; [reflexivity |]. split; [cbn; lia |].
    split; [intros _; now left | discriminate].
  - destruct (nth (Z.to_nat module) (GlobalInfo.callbacks gi) None) as [tbl |].
    + destruct (Z.ltb_spec callback (GetModuleCallbacksSize module)) as [Hcb | Hcb];
        cbn [snd GlobalInfo.callbacks GlobalInfo.logger]; (split; [reflexivity |]).
      * exists []. rewrite app_nil_r. split; [reflexivity |]. split; [cbn; lia |].
        split; [congruence | intros [H | [_ H]]; lia].
      * eexists. split; [reflexivity |]. split; [cbn; lia |].
        split; [intros _; right; split; [discriminate | exact Hcb] | discriminate].
    + cbn [snd]. split; [reflexivity |].
      exists []. rewrite app_nil_r. split; [reflexivity |]. split; [cbn; lia |].
      split; [congruence | intros [H | [H _]]; [lia | congruence]].
Qed.

(** ** [TaskContext] *)

Section Tasks.

Import task.

Lemma statuses_app (l1 l2 : list trace_line) :
  statuses (l1 ++ l2) = statuses l1 ++ statuses l2.
Proof.
  induction l1 as [|line l1 IH]; [reflexivity |].
  destruct line; cbn [app statuses]; now rewrite IH.
Qed.

Lemma last_cons_default {A : Type} (l : list A) (a d d' : A) :
  last (a :: l) d = last (a :: l) d'.
Proof.
  revert a. induction l as [|b l IH]; intros a; [reflexivity |].
  change (last (a :: b :: l) d) with (last (b :: l) d).
  change (last (a :: b :: l) d') with (last (b :: l) d').
  apply IH.
Qed.

(** What one setter call does to a context. *)
Lemma call_effect (op : setter) (c : TaskContext) :
  let c' := Method.after (call op) c in
  workerName c' = workerName c /\
  status c' = match op with CallSetStatus s => s | _ => status c end /\
  trace c' = trace c ++ match op with
                        | CallSetStartTime start => [StartTimeLine (workerName c) start]
                        | CallSetStatus s => [StatusLine (workerName c) s]
                        | _ => []
                        end /\
  exitCode c' = match op with
                | CallSetExitCode code => convert int32_t code
                | _ => exitCode c
                end.
Proof.
  destruct op; cbn; rewrite ?app_nil_r; repeat split.
Qed.

(** What a run of setter calls does to a context. *)
Lemma run_effect (ops : list setter) :
  forall c,
  workerName (run ops c) = workerName c /\
  status (run ops c) = last (statuses_set ops) (status c) /\
  statuses (trace (run ops c)) = statuses (trace c) ++ statuses_set ops /\
  (Forall (fun line => line_worker line = workerName c) (trace c) ->
   Forall (fun line => line_worker line = workerName c) (trace (run ops c))).
Proof.
  induction ops as [|op ops IH]; intros c.
  - cbn [run statuses_set last]. rewrite app_nil_r. tauto.
  - cbn [run].
    destruct (IH (Method.after (call op) c)) as (Hn & Hs & Ht & Hw).
    destruct (call_effect op c) as (Cn & Cs & Ct & Ce).
    rewrite Hn, Hs, Ht, Cn, Cs, Ct, statuses_app, <- app_assoc.
    rewrite Cn, Ct in Hw.
    split; [reflexivity |].
    split; [destruct op; cbn [statuses_set]; try reflexivity;
            destruct (statuses_set ops);
            [reflexivity | cbn [last]; apply last_cons_default] |].
    split; [destruct op; reflexivity |].
    intros Hall. apply Hw. apply Forall_app. split; [exact Hall |].
    destruct op; now repeat constructor.
Qed.

Lemma run_app (ops1 ops2 : list setter) :
  forall c, run (ops1 ++ ops2) c = run ops2 (run ops1 c).
Proof.
  induction ops1 as [|op ops1 IH]; intros c; [reflexivity |].
  cbn [app run]. apply IH.
Qed.

(** A call leaves the members of the other setters alone. *)
Lemma call_other_member (op : setter) (m : member) (c : TaskContext) :
  member_eqb (target op) m = false ->
  member_value m (Method.after (call op) c) = member_value m c.
Proof. destruct op, m; intros H; try discriminate H; reflexivity. Qed.

Lemma call_own_member (op : setter) (c : TaskContext) :
  member_value (target op) (Method.after (call op) c) = stored op.
Proof. destruct op; reflexivity. Qed.

Lemma run_other_members (ops : list setter) (m : member) :
  forall c,
  forallb (fun op => negb (member_eqb (target op) m)) ops = true ->
  member_value m (run ops c) = member_value m c.
Proof.
  induction ops as [|op ops IH]; intros c Hops; [reflexivity |].
  cbn [forallb] in Hops. apply andb_prop in Hops as [Hop Hops].
  cbn [run]. rewrite (IH _ Hops). apply call_other_member.
  now apply negb_true_iff.
Qed.

End Tasks.

(** X17: after any run of setter calls on a newly built context, the
    worker name is the one given to the constructor, the trace holds one
    status line per [SetStatus] call, in call order, each line names the
    worker, and [GetStatus] returns the status of the last status line,
    or [TASK_STATE_IDLE] when there is none. *)
Theorem TaskContext_trace_follows_status
        (name : string) (timeout : Z) (ops : list task.setter) :
  let c := task.run ops (task.create name timeout) in
  Method.result task.GetWorkerName c = name /\
  task.statuses (task.trace c) = task.statuses_set ops /\
  Method.result task.GetStatus c
  = last (task.statuses (task.trace c)) task.TASK_STATE_IDLE /\
  Forall (fun line => task.line_worker line = name) (task.trace c).
Proof.
  intros c.
  destruct (run_effect ops (task.create name timeout)) as (Hn & Hs & Ht & Hw).
  cbn [task.create task.workerName task.status task.trace app] in *.
  unfold Method.result, task.GetWorkerName, task.GetStatus, Method.read. cbn [fst].
  fold c in Hn, Hs, Ht, Hw.
  split; [exact Hn |]. split; [exact Ht |].
  split; [now rewrite Ht |].
  apply Hw. constructor.
Qed.

(** X18: what a setter stores is what its getter returns afterwards,
    whatever was called before and however many calls of the other three
    setters come after: the four members do not disturb one another. *)
Theorem TaskContext_setter_value_survives
        (op : task.setter) (before after : list task.setter) (c : task.TaskContext) :
  forallb (fun op' => negb (task.member_eqb (task.target op') (task.target op))) after
  = true ->
  task.member_value (task.target op) (task.run (before ++ op :: after) c)
  = task.stored op.
Proof.
  intros Hafter. rewrite run_app. cbn [task.run].
  rewrite (run_other_members after (task.target op) _ Hafter).
  apply call_own_member.
Qed.

Lemma TaskContext_setter_value_survives_witness :
  let ops := [task.CallSetStatus task.TASK_STATE_INIT;
              task.CallSetTimeOut 30;
              task.CallSetStatus task.TASK_STATE_IN_PROGRESS;
              task.CallSetExitCode (-1);
              task.CallSetStartTime 1700000000] in
  Method.result task.GetTimeOut (task.run ops (task.create "worker" 10)) = 30.
Proof.
  exact (TaskContext_setter_value_survives (task.CallSetTimeOut 30)
           [task.CallSetStatus task.TASK_STATE_INIT]
           [task.CallSetStatus task.TASK_STATE_IN_PROGRESS;
            task.CallSetExitCode (-1);
            task.CallSetStartTime 1700000000]
           (task.create "worker" 10) eq_refl).
Defined.
